(** * pokerok.py: the disk-image session tool, embedded in Rocq

    The script is a thin layer over the operating system: it runs
    [hdiutil], [spctl] and [codesign], reads the plist that [hdiutil]
    prints, and touches the file system through [pathlib] and [shutil].
    The embedding keeps that shape.  Pure helpers are functions; the file
    system is an explicit tree; external commands are answered by an
    oracle that is a parameter of the development; code that can raise
    lives in a state-and-exception monad whose state records every
    command run and every line printed. *)

From Stdlib Require Import ZArith List Bool Ascii Lia Permutation Sorted.
From stdpp Require Import base option list strings gmap pretty.

Local Open Scope string_scope.
Local Open Scope list_scope.

(** ** Python strings

    A Python [str] is held as its UTF-8 bytes in a Rocq [string]. *)
Module Py.

(** Truth value of a [str]: only the empty string is falsy. *)
Definition truthy (s : string) : bool :=
  match s with EmptyString => false | String _ _ => true end.

(** [a or b] on strings. *)
Definition or_ (a b : string) : string := if truthy a then a else b.

(** [s.startswith(p)]. *)
Fixpoint startswith (p s : string) : bool :=
  match p with
  | EmptyString => true
  | String a p' =>
      match s with
      | EmptyString => false
      | String b s' => if Ascii.eqb a b then startswith p' s' else false
      end
  end.

(** The remainder of [s] after the prefix [p], when [p] is a prefix. *)
Fixpoint drop_prefix (p s : string) : option string :=
  match p with
  | EmptyString => Some s
  | String a p' =>
      match s with
      | EmptyString => None
      | String b s' => if Ascii.eqb a b then drop_prefix p' s' else None
      end
  end.

Definition rev (s : string) : string :=
  String.string_of_list_ascii (List.rev (String.list_ascii_of_string s)).

(** [s.endswith(p)]. *)
Definition endswith (p s : string) : bool := startswith (rev p) (rev s).

Definition chr (n : nat) : string := String (Ascii.ascii_of_nat n) EmptyString.
Definition chr2 (a b : nat) : string := String (Ascii.ascii_of_nat a) (chr b).
Definition chr3 (a b c : nat) : string := String (Ascii.ascii_of_nat a) (chr2 b c).

(** The characters [str.strip()] removes, as UTF-8: U+0009..U+000D,
    U+001C..U+001F, U+0020, U+0085, U+00A0, U+1680, U+2000..U+200A,
    U+2028, U+2029, U+202F, U+205F, U+3000. *)
Definition whitespace : list string :=
  List.map chr [9; 10; 11; 12; 13; 28; 29; 30; 31; 32]
  ++ [chr2 194 133; chr2 194 160; chr3 225 154 128]
  ++ List.map (chr3 226 128) [128; 129; 130; 131; 132; 133; 134; 135; 136; 137; 138]
  ++ [chr3 226 128 168; chr3 226 128 169; chr3 226 128 175;
      chr3 226 129 159; chr3 227 128 128].

(** Remove one leading occurrence of one of the patterns [ws]. *)
Fixpoint strip_one (ws : list string) (s : string) : option string :=
  match ws with
  | [] => None
  | w :: ws' =>
      match drop_prefix w s with
      | Some r => Some r
      | None => strip_one ws' s
      end
  end.

Fixpoint lstrip_with (ws : list string) (fuel : nat) (s : string) : string :=
  match fuel with
  | O => s
  | S fuel' =>
      match strip_one ws s with
      | Some r => lstrip_with ws fuel' r
      | None => s
      end
  end.

Definition lstrip (s : string) : string :=
  lstrip_with whitespace (String.length s) s.

Definition rstrip (s : string) : string :=
  rev (lstrip_with (List.map rev whitespace) (String.length s) (rev s)).

(** [s.strip()]. *)
Definition strip (s : string) : string := rstrip (lstrip s).

(** [sep.join(l)]. *)
Fixpoint join (sep : string) (l : list string) : string :=
  match l with
  | [] => ""
  | [x] => x
  | x :: l' => x +:+ sep +:+ join sep l'
  end.

(** [s.split('/')]: the pieces between slashes, empty pieces included. *)
Fixpoint split_slash (s : string) : list string :=
  match s with
  | EmptyString => [""]
  | String c s' =>
      if Ascii.eqb c "/"%char then "" :: split_slash s'
      else match split_slash s' with
           | [] => [String c ""]
           | w :: ws => String c w :: ws
           end
  end.

End Py.

(** ** Exceptions the script can meet *)

Inductive oserror :=
| FileNotFoundError      (* ENOENT *)
| FileExistsError        (* EEXIST *)
| NotADirectoryError     (* ENOTDIR *)
| IsADirectoryError      (* EISDIR, or EPERM for unlink of a directory *)
| LoopError              (* ELOOP: too many levels of symbolic links *)
| RmtreeOnSymlink        (* OSError("Cannot call rmtree on a symbolic link") *)
| BusyError.             (* EBUSY and other refusals of the system *)

Inductive exn :=
| CalledProcessError (returncode : Z) (cmd : list string) (stdout stderr : string)
| RuntimeError (msg : string)
| OSError (e : oserror)
| UnicodeDecodeError
| ShutilError
| InvalidFileException.

(** Outcome of a call that may raise. *)
Inductive result (A : Type) :=
| Ok (a : A)
| Raise (e : exn).
Arguments Ok {A} a.
Arguments Raise {A} e.

(** ** pathlib's pure paths

    A path is its anchor (does it start at the root?) and its parts.
    [Path(s)] drops empty parts and "." parts and keeps "..". *)
Module PurePath.

Record Path := mkPath { anchored : bool; parts : list string }.

Definition keep_part (c : string) : bool :=
  negb (String.eqb c "" || String.eqb c ".").

(** [Path(s)]. *)
Definition of_str (s : string) : Path :=
  {| anchored := Py.startswith "/" s;
     parts := List.filter keep_part (Py.split_slash s) |}.

(** [str(p)]. *)
Definition to_str (p : Path) : string :=
  match parts p with
  | [] => if anchored p then "/" else "."
  | ps => (if anchored p then "/" else "") +:+ Py.join "/" ps
  end.

(** [p.name]: the final part, or the empty string. *)
Definition name (p : Path) : string := List.last (parts p) "".

(** [p.parent]. *)
Definition parent (p : Path) : Path :=
  {| anchored := anchored p; parts := List.removelast (parts p) |}.

(** [p / q] for a path [q]. *)
Definition join (p q : Path) : Path :=
  if anchored q then q
  else {| anchored := anchored p; parts := parts p ++ parts q |}.

(** [p / s] for a string [s]. *)
Definition div (p : Path) (s : string) : Path := join p (of_str s).

(** [parent._make_child_relpath(name)], the child a directory scan yields. *)
Definition child (p : Path) (c : string) : Path :=
  {| anchored := anchored p; parts := parts p ++ [c] |}.

End PurePath.
Export PurePath.


(** ** The file system

    A tree of files, symbolic links and directories.  A directory keeps
    its entries in the order in which a scan ([os.scandir]) reports them;
    a new entry goes to the end.  A symbolic link keeps its text as a
    path.  Permissions are not modelled: every refusal comes from the
    shape of the tree. *)
Module FS.

#[warnings="-register-all"]
Inductive node :=
| File (data : string)
| Link (target : Path)
| Dir (entries : list (string * node)).

(** The tree and the working directory (parts from the root, no links). *)
Record fsys := mkFs { root : node; cwd : list string }.

Definition with_root (fs : fsys) (r : node) : fsys :=
  {| root := r; cwd := cwd fs |}.

(** Longest chain of symbolic links one lookup follows (MAXSYMLINKS). *)
Definition MAXSYMLINKS : nat := 32.

Fixpoint assoc (c : string) (es : list (string * node)) : option node :=
  match es with
  | [] => None
  | (k, n) :: es' => if String.eqb k c then Some n else assoc c es'
  end.

(** The node at a location given by plain names, no link followed. *)
Fixpoint get (n : node) (p : list string) : option node :=
  match p with
  | [] => Some n
  | c :: p' =>
      match n with
      | Dir es =>
          match assoc c es with
          | Some m => get m p'
          | None => None
          end
      | _ => None
      end
  end.

Definition map_entry (c : string) (g : node -> node)
    (es : list (string * node)) : list (string * node) :=
  List.map (fun kn => if String.eqb (fst kn) c then (fst kn, g (snd kn)) else kn) es.

(** Rewrite the entries of the directory at location [p]. *)
Fixpoint update (n : node) (p : list string)
    (f : list (string * node) -> list (string * node)) : node :=
  match p with
  | [] => match n with Dir es => Dir (f es) | _ => n end
  | c :: p' =>
      match n with
      | Dir es => Dir (map_entry c (fun m => update m p' f) es)
      | _ => n
      end
  end.

Definition remove_entry (c : string) (es : list (string * node)) :=
  List.filter (fun kn => negb (String.eqb (fst kn) c)) es.

Definition add_entry (c : string) (n : node) (es : list (string * node)) :=
  es ++ [(c, n)].

Definition dot (c : string) : bool := String.eqb c "" || String.eqb c ".".
Definition dotdot (c : string) : bool := String.eqb c "..".

Definition is_nil {A} (l : list A) : bool :=
  match l with [] => true | _ => false end.

(** Path lookup as the kernel does it.  [cur] is the location reached so
    far, [rest] the parts still to walk.  A link in the way is replaced by
    its text; a link at the very end is followed only when [follow] is
    set.  [fuel] bounds the number of links followed. *)
Fixpoint walk (fuel : nat) (r : node) (follow : bool)
    (cur rest : list string) {struct fuel} : oserror + list string :=
  match fuel with
  | O => inl LoopError
  | S fuel' =>
      (fix go (cur rest : list string) {struct rest} : oserror + list string :=
         match rest with
         | [] => inr cur
         | c :: rest' =>
             match get r cur with
             | Some (Dir es) =>
                 if dot c then go cur rest'
                 else if dotdot c then go (List.removelast cur) rest'
                 else
                   match assoc c es with
                   | None => inl FileNotFoundError
                   | Some (Link t) =>
                       if is_nil rest' && negb follow then inr (cur ++ [c])
                       else walk fuel' r follow
                              (if anchored t then [] else cur) (parts t ++ rest')
                   | Some _ => go (cur ++ [c]) rest'
                   end
             | Some _ => inl NotADirectoryError
             | None => inl FileNotFoundError
             end
         end) cur rest
  end.

Definition start (fs : fsys) (p : Path) : list string :=
  if anchored p then [] else cwd fs.

(** Where a path leads, as a location. *)
Definition namei (follow : bool) (fs : fsys) (p : Path) : oserror + list string :=
  walk (S MAXSYMLINKS) (root fs) follow (start fs p) (parts p).

Definition node_at (follow : bool) (fs : fsys) (p : Path) : oserror + node :=
  match namei follow fs p with
  | inl e => inl e
  | inr q =>
      match get (root fs) q with
      | Some n => inr n
      | None => inl FileNotFoundError
      end
  end.

(** [os.stat] and [os.lstat], reduced to the node they describe. *)
Definition stat : fsys -> Path -> oserror + node := node_at true.
Definition lstat : fsys -> Path -> oserror + node := node_at false.

(** [Path.exists()] and [Path.is_dir()]: both follow links, and both
    answer False where the lookup fails. *)
Definition exists_ (fs : fsys) (p : Path) : bool :=
  match stat fs p with inr _ => true | inl _ => false end.

Definition is_dir (fs : fsys) (p : Path) : bool :=
  match stat fs p with inr (Dir _) => true | _ => false end.

(** [os.mkdir(p)]: one new, empty directory; the parent must be there and
    nothing may carry the name yet, not even a dangling link. *)
Definition os_mkdir (fs : fsys) (p : Path) : oserror + fsys :=
  match lstat fs p with
  | inr _ => inl FileExistsError
  | inl FileNotFoundError =>
      match parts p with
      | [] => inl FileNotFoundError
      | _ :: _ =>
          let c := List.last (parts p) "" in
          match namei true fs (parent p) with
          | inl e => inl e
          | inr d =>
              match get (root fs) d with
              | Some (Dir _) =>
                  if dot c || dotdot c then inl FileNotFoundError
                  else inr (with_root fs (update (root fs) d (add_entry c (Dir []))))
              | Some _ => inl NotADirectoryError
              | None => inl FileNotFoundError
              end
          end
      end
  | inl e => inl e
  end.

(** [Path.mkdir(parents=True, exist_ok=True)], on the parts in reverse:
<<
    try: os.mkdir(self)
    except FileNotFoundError:
        if self.parent == self: raise
        self.parent.mkdir(parents=True, exist_ok=True)
        self.mkdir(parents=False, exist_ok=True)
    except OSError:
        if not self.is_dir(): raise
>> *)
Fixpoint mkdir_parents (anch : bool) (rparts : list string) (fs : fsys)
    : fsys * result unit :=
  let p := mkPath anch (List.rev rparts) in
  match os_mkdir fs p with
  | inr fs' => (fs', Ok tt)
  | inl FileNotFoundError =>
      match rparts with
      | [] => (fs, Raise (OSError FileNotFoundError))
      | _ :: rp =>
          match mkdir_parents anch rp fs with
          | (fs1, Raise e) => (fs1, Raise e)
          | (fs1, Ok _) =>
              match os_mkdir fs1 p with
              | inr fs2 => (fs2, Ok tt)
              | inl FileNotFoundError => (fs1, Raise (OSError FileNotFoundError))
              | inl e =>
                  if is_dir fs1 p then (fs1, Ok tt) else (fs1, Raise (OSError e))
              end
          end
      end
  | inl e => if is_dir fs p then (fs, Ok tt) else (fs, Raise (OSError e))
  end.

Definition Path_mkdir (p : Path) (fs : fsys) : fsys * result unit :=
  mkdir_parents (anchored p) (List.rev (parts p)) fs.

(** [os.makedirs(p)] with [exist_ok=False]: missing parents are made
    first (an already-existing parent is no error), then [os.mkdir(p)]. *)
Fixpoint makedirs (anch : bool) (rparts : list string) (fs : fsys)
    : fsys * result unit :=
  let p := mkPath anch (List.rev rparts) in
  let last_step (fs1 : fsys) :=
    match os_mkdir fs1 p with
    | inr fs2 => (fs2, Ok tt)
    | inl e => (fs1, Raise (OSError e))
    end in
  match rparts with
  | [] => last_step fs
  | _ :: rp =>
      let head := mkPath anch (List.rev rp) in
      if (anch || negb (is_nil rp)) && negb (exists_ fs head) then
        match makedirs anch rp fs with
        | (fs1, Ok _) => last_step fs1
        | (fs1, Raise (OSError FileExistsError)) => last_step fs1
        | (fs1, Raise e) => (fs1, Raise e)
        end
      else last_step fs
  end.

(** [shutil.rmtree(p)]: refuses a symbolic link, removes a directory with
    everything below it. *)
Definition rmtree (p : Path) (fs : fsys) : fsys * result unit :=
  match namei false fs p with
  | inl e => (fs, Raise (OSError e))
  | inr q =>
      match get (root fs) q with
      | None => (fs, Raise (OSError FileNotFoundError))
      | Some (Link _) => (fs, Raise (OSError RmtreeOnSymlink))
      | Some (File _) => (fs, Raise (OSError NotADirectoryError))
      | Some (Dir _) =>
          match q with
          | [] => (with_root fs (Dir []), Raise (OSError BusyError))
          | _ :: _ =>
              (with_root fs (update (root fs) (List.removelast q)
                               (remove_entry (List.last q ""))), Ok tt)
          end
      end
  end.

(** [Path.unlink()]: removes a file or a link, never a directory. *)
Definition unlink (p : Path) (fs : fsys) : fsys * result unit :=
  match namei false fs p with
  | inl e => (fs, Raise (OSError e))
  | inr q =>
      match get (root fs) q with
      | None => (fs, Raise (OSError FileNotFoundError))
      | Some (Dir _) => (fs, Raise (OSError IsADirectoryError))
      | Some _ =>
          match q with
          | [] => (fs, Raise (OSError IsADirectoryError))
          | _ :: _ =>
              (with_root fs (update (root fs) (List.removelast q)
                               (remove_entry (List.last q ""))), Ok tt)
          end
      end
  end.

Fixpoint is_prefix (p q : list string) : bool :=
  match p, q with
  | [], _ => true
  | a :: p', b :: q' => String.eqb a b && is_prefix p' q'
  | _ :: _, [] => false
  end.

(** [shutil.copytree(src, dst, symlinks=True)]: scan [src], make [dst]
    (which must not exist), then recreate every entry below it: a link as
    a link with the same text, a directory by recursion, a file by its
    content.  The scan of [src] is taken before [dst] is made, so the
    result is the tree that was at [src].  When [dst] lies inside a
    subdirectory of [src] the real copy descends into its own output
    until the system refuses; here that case stops with an error after
    [dst] has been made. *)
Definition copytree (src dst : Path) (fs : fsys) : fsys * result Path :=
  match namei true fs src with
  | inl e => (fs, Raise (OSError e))
  | inr s =>
      match get (root fs) s with
      | None => (fs, Raise (OSError FileNotFoundError))
      | Some (Dir es) =>
          match makedirs (anchored dst) (List.rev (parts dst)) fs with
          | (fs1, Raise e) => (fs1, Raise e)
          | (fs1, Ok _) =>
              match namei true fs1 dst with
              | inl e => (fs1, Raise (OSError e))
              | inr d =>
                  if is_prefix s (List.removelast d) && negb (is_prefix (List.removelast d) s)
                  then (fs1, Raise ShutilError)
                  else (with_root fs1 (update (root fs1) d (fun old => old ++ es)), Ok dst)
              end
          end
      | Some _ => (fs, Raise (OSError NotADirectoryError))
      end
  end.

(** [Path.iterdir()]: the children in the order of the scan. *)
Definition iterdir (p : Path) (fs : fsys) : result (list Path) :=
  match stat fs p with
  | inr (Dir es) => Ok (List.map (fun kn => child p (fst kn)) es)
  | inr _ => Raise (OSError NotADirectoryError)
  | inl e => Raise (OSError e)
  end.

(** The order in which [Path.rglob] enters the subdirectories of a
    directory is the interpreter's choice: CPython up to 3.11 recurses
    into them in scan order, later versions keep them on a stack and so
    take the last one first. *)
Inductive walk_order := ScanOrder | StackOrder.

Definition arrange {A} (o : walk_order) (l : list A) : list A :=
  match o with ScanOrder => l | StackOrder => List.rev l end.

(** Directories below [n] in the order [Path.rglob] visits them: the
    directory itself, then what lies below each real subdirectory; links
    are not entered. *)
Fixpoint iterate_directories (o : walk_order) (p : Path) (n : node) {struct n}
    : list (Path * list (string * node)) :=
  match n with
  | Dir es =>
      (p, es) :: List.concat (arrange o
        (List.map (fun kn => iterate_directories o (child p (fst kn)) (snd kn)) es))
  | _ => []
  end.

(** The entries of one directory whose name matches [*.app]. *)
Definition select_app (d : Path * list (string * node)) : list Path :=
  List.map (fun kn => child (fst d) (fst kn))
    (List.filter (fun kn => Py.endswith ".app" (fst kn)) (snd d)).

(** [p.rglob('*.app')] as the list of what the generator yields.  The
    generator also drops a path it has already yielded; the scan of a tree
    with one entry per name never repeats one. *)
Definition rglob_app (o : walk_order) (p : Path) (fs : fsys) : list Path :=
  match stat fs p with
  | inr (Dir es) => List.flat_map select_app (iterate_directories o p (Dir es))
  | _ => []
  end.

End FS.

(** ** Order on paths and [sorted]

    Paths compare as the lists of their parts, strings by code point
    (which is the order of their UTF-8 bytes). *)

Definition cparts (p : Path) : list string :=
  (if anchored p then ["/"] else []) ++ parts p.

Fixpoint list_ltb (a b : list string) : bool :=
  match a, b with
  | [], [] => false
  | [], _ :: _ => true
  | _ :: _, [] => false
  | x :: a', y :: b' =>
      match String.compare x y with
      | Lt => true
      | Gt => false
      | Eq => list_ltb a' b'
      end
  end.

Definition Path_ltb (p q : Path) : bool := list_ltb (cparts p) (cparts q).

(** [sorted] is stable; so is insertion before the first element that is
    not smaller. *)
Fixpoint insert_sorted (x : Path) (l : list Path) : list Path :=
  match l with
  | [] => [x]
  | y :: l' => if Path_ltb y x then y :: insert_sorted x l' else x :: l
  end.

Definition sorted (l : list Path) : list Path :=
  List.fold_right insert_sorted [] l.

(** ** The mount report

    [hdiutil attach -plist] prints a dictionary whose key
    [system-entities] holds one dictionary per device node.  The script
    reads three string-valued keys of each; an entity is the map from its
    keys to those strings. *)

Definition entity := gmap string string.

(** The loop over the entities: the last entry with a mount point gives
    [mnt]; the last entry with a device node and a content hint starting
    with [Apple_HFS] gives [device]. *)
Definition scan_step (acc : option Path * option string) (ent : entity)
    : option Path * option string :=
  let mnt :=
    match ent !! "mount-point" with
    | Some s => Some (of_str s)
    | None => fst acc
    end in
  let device :=
    match ent !! "dev-entry" with
    | Some d =>
        if Py.startswith "Apple_HFS" (default "" (ent !! "content-hint"))
        then Some d else snd acc
    | None => snd acc
    end in
  (mnt, device).

Definition scan_entities (ents : list entity) : option Path * option string :=
  List.fold_left scan_step ents (None, None).

(** [for ent in ...: if key in ent: x = ent[key]; break]. *)
Fixpoint first_with (key : string) (ents : list entity) : option string :=
  match ents with
  | [] => None
  | ent :: rest =>
      match ent !! key with
      | Some v => Some v
      | None => first_with key rest
      end
  end.

(** Truth value of a variable that holds [None] or a [str]. *)
Definition truthy_opt (d : option string) : bool :=
  match d with Some s => Py.truthy s | None => false end.

(** [if not mnt: ...]: a [Path] is always true, so only [None] falls back. *)
Definition fallback_mnt (ents : list entity) (mnt : option Path) : option Path :=
  match mnt with
  | Some m => Some m
  | None => of_str <$> first_with "mount-point" ents
  end.

(** [if not device: ...]: [None] and the empty string fall back. *)
Definition fallback_device (ents : list entity) (device : option string)
    : option string :=
  if truthy_opt device then device
  else match first_with "dev-entry" ents with
       | Some d => Some d
       | None => device
       end.

(** What [hdiutil_attach] makes of the entities of the report. *)
Definition resolve_mount (ents : list entity) : result (Path * string) :=
  let '(mnt0, device0) := scan_entities ents in
  let mnt := fallback_mnt ents mnt0 in
  let device := fallback_device ents device0 in
  match mnt with
  | Some m =>
      if truthy_opt device then Ok (m, default "" device)
      else Raise (RuntimeError "Не удалось определить точку монтирования или устройство.")
  | None => Raise (RuntimeError "Не удалось определить точку монтирования или устройство.")
  end.

(** ** The platform

    What the script cannot decide by itself is a field of [Platform]:
    how an external command ends and what it changes, what [plistlib]
    reads from a mount report ([None] where it cannot read it, otherwise
    the value under [system-entities], if any), which temporary
    directory [tempfile]
    makes and how its removal goes, how [~] expands, and the order in
    which [rglob] enters subdirectories.  [H] is whatever state the
    system keeps besides the file tree (attached devices and the like). *)

Inductive outcome :=
| Exited (rc : Z) (out err : string)   (* the command ran and ended with [rc] *)
| Undecodable (rc : Z)                 (* it ran and ended with [rc], but what it
                                          wrote is not text in the encoding of
                                          the locale *)
| NotLaunched (e : oserror).           (* [subprocess.run] could not start it *)

Record Platform (H : Type) := mkPlatform {
  exec : list string -> H -> FS.fsys -> H * FS.fsys * outcome;
  loads : string -> option (option (list entity));
  mkdtemp : string -> H -> FS.fsys -> H * FS.fsys * result string;
  cleanup : string -> H -> FS.fsys -> H * FS.fsys * result unit;
  expanduser : Path -> result Path;
  glob_order : FS.walk_order
}.
Arguments exec {H} _ _ _ _.
Arguments loads {H} _ _.
Arguments mkdtemp {H} _ _ _ _.
Arguments cleanup {H} _ _ _ _.
Arguments expanduser {H} _ _.
Arguments glob_order {H} _.

(** [subprocess.CompletedProcess]. *)
Record CompletedProcess := mkCompleted {
  args : list string;
  returncode : Z;
  stdout : string;
  stderr : string
}.

(** The state a run of the script threads along: the file tree, the rest
    of the system, the lines printed so far and the commands handed to
    [subprocess.run] so far, oldest first. *)
Record World (H : Type) := mkWorld {
  files : FS.fsys;
  hidden : H;
  printed : list string;
  log : list (list string)
}.
Arguments mkWorld {H} _ _ _ _.
Arguments files {H} _.
Arguments hidden {H} _.
Arguments printed {H} _.
Arguments log {H} _.

(** Parsed command lines of the subcommands [list], [copy], [verify]. *)
Record list_args := { list_dmg : string }.
Record copy_args := { copy_dmg : string; copy_dest : string; copy_dry_run : bool }.
Record verify_args := { verify_dmg : string }.

Section Monad.

Context {H : Type}.

(** *** Computations that change the world and may raise *)

Definition M (A : Type) : Type := World H -> World H * result A.

Definition ret {A} (a : A) : M A := fun w => (w, Ok a).

Definition raise {A} (e : exn) : M A := fun w => (w, Raise e).

Definition bind {A B} (c : M A) (k : A -> M B) : M B :=
  fun w =>
    match c w with
    | (w', Ok a) => k a w'
    | (w', Raise e) => (w', Raise e)
    end.

(** [try: body finally: fin].  [fin] runs however [body] ends; what it
    raises replaces what [body] returned or raised. *)
Definition try_finally {A} (body : M A) (fin : M unit) : M A :=
  fun w =>
    let '(w1, r) := body w in
    match fin w1 with
    | (w2, Ok _) => (w2, r)
    | (w2, Raise e) => (w2, Raise e)
    end.

(** [try: body except subprocess.CalledProcessError as e: handler(e)]. *)
Definition try_except_called {A} (body : M A) (handler : exn -> M A) : M A :=
  fun w =>
    match body w with
    | (w1, Raise (CalledProcessError rc cmd out err)) =>
        handler (CalledProcessError rc cmd out err) w1
    | x => x
    end.

(** A step on the file tree alone. *)
Definition on_files {A} (f : FS.fsys -> FS.fsys * result A) : M A :=
  fun w =>
    let '(fs', r) := f (files w) in
    (mkWorld fs' (hidden w) (printed w) (log w), r).

Definition read_files {A} (f : FS.fsys -> A) : M A :=
  fun w => (w, Ok (f (files w))).

Definition lift {A} (r : result A) : M A := fun w => (w, r).

(** [print(line)]. *)
Definition print (line : string) : M unit :=
  fun w => (mkWorld (files w) (hidden w) (printed w ++ [line]) (log w), Ok tt).

End Monad.

Arguments M : clear implicits.

Notation "x <- c ;; k" := (bind c (fun x => k))
  (at level 100, c at next level, right associativity).
Notation "c ;;; k" := (bind c (fun _ => k))
  (at level 100, right associativity).

Section Program.

Context {H : Type} (os : Platform H).

(** [run(cmd, check)]: [subprocess.run] with captured text output.
    With [text=True] the captured bytes are decoded once the command
    has ended, before its exit status is looked at: bytes that are not
    text raise [UnicodeDecodeError], whatever the status and whatever
    [check] says. *)
Definition run (cmd : list string) (check : bool) : M H CompletedProcess :=
  fun w =>
    let '(h', fs', o) := exec os cmd (hidden w) (files w) in
    let w' := mkWorld fs' h' (printed w) (log w ++ [cmd]) in
    match o with
    | NotLaunched e => (w', Raise (OSError e))
    | Undecodable _ => (w', Raise UnicodeDecodeError)
    | Exited rc out err =>
        if check && negb (rc =? 0)%Z
        then (w', Raise (CalledProcessError rc cmd out err))
        else (w', Ok (mkCompleted cmd rc out err))
    end.

(** [with tempfile.TemporaryDirectory(prefix=...) as tmp: body]. *)
Definition with_tempdir {A} (prefix : string) (body : string -> M H A) : M H A :=
  tmp <- (fun w =>
            let '(h', fs', r) := mkdtemp os prefix (hidden w) (files w) in
            (mkWorld fs' h' (printed w) (log w), r)) ;;
  try_finally (body tmp)
    (fun w =>
       let '(h', fs', r) := cleanup os tmp (hidden w) (files w) in
       (mkWorld fs' h' (printed w) (log w), r)).

(** *** The functions of the script *)

Definition attach_args (dmg : Path) : list string :=
  ["hdiutil"; "attach"; to_str dmg; "-readonly"; "-nobrowse"; "-noverify"; "-plist"].

Definition hdiutil_attach (dmg : Path) (mountpoint : option Path)
    : M H (Path * string) :=
  cmd <- match mountpoint with
         | Some mp =>
             on_files (FS.Path_mkdir mp) ;;;
             ret (attach_args dmg ++ ["-mountpoint"; to_str mp])
         | None => ret (attach_args dmg)
         end ;;
  res <- run cmd true ;;
  pl <- lift (match loads os (stdout res) with
              | Some pl => Ok pl
              | None => Raise InvalidFileException
              end) ;;
  lift (resolve_mount (default [] pl)).

Definition hdiutil_detach (target : string) : M H unit :=
  try_except_called
    (run ["hdiutil"; "detach"; target] true ;;; ret tt)
    (fun e => run ["hdiutil"; "detach"; "-force"; target] true ;;; ret tt).

Definition annotate (fs : FS.fsys) (p : Path) : string :=
  (if FS.is_dir fs p then "[D]" else "[F]") +:+ " " +:+ name p.

Definition list_top (mountpoint : Path) : M H (list string) :=
  ps <- (fun w => (w, FS.iterdir mountpoint (files w))) ;;
  fs <- read_files id ;;
  ret (List.map (annotate fs) (sorted ps)).

Definition find_app_bundle (mountpoint : Path) : M H (option Path) :=
  read_files (fun fs => List.head (FS.rglob_app (glob_order os) mountpoint fs)).

Definition copy_app (app_src dest_dir : Path) (dry_run : bool) : M H Path :=
  on_files (FS.Path_mkdir dest_dir) ;;;
  let dest := div dest_dir (name app_src) in
  if dry_run then
    print ("[DRY-RUN] Скопировал бы: " +:+ to_str app_src +:+ " -> " +:+ to_str dest) ;;;
    ret dest
  else
    dest_exists <- read_files (fun fs => FS.exists_ fs dest) ;;
    (if dest_exists then
       dest_is_dir <- read_files (fun fs => FS.is_dir fs dest) ;;
       if dest_is_dir then on_files (FS.rmtree dest) else on_files (FS.unlink dest)
     else ret tt) ;;;
    on_files (FS.copytree app_src dest) ;;;
    ret dest.

Definition failure_text (e : exn) : string :=
  match e with
  | CalledProcessError _ _ out err => Py.strip (Py.or_ err out)
  | _ => ""
  end.

Definition spctl_assess (app_path : Path) : M H (bool * string) :=
  try_except_called
    (res <- run ["spctl"; "--assess"; "--type"; "execute"; "--verbose";
                 to_str app_path] true ;;
     ret (true, Py.or_ (Py.strip (stderr res)) (Py.strip (stdout res))))
    (fun e => ret (false, failure_text e)).

Definition codesign_verify (app_path : Path) : M H (bool * string) :=
  try_except_called
    (res <- run ["codesign"; "--verify"; "--deep"; "--strict"; "--verbose=2";
                 to_str app_path] true ;;
     ret (true, Py.or_ (Py.strip (stderr res)) (Py.strip (stdout res))))
    (fun e => ret (false, failure_text e)).

Fixpoint print_all (lines : list string) : M H unit :=
  match lines with
  | [] => ret tt
  | l :: rest => print l ;;; print_all rest
  end.

Definition no_app : exn := RuntimeError "В образе не найден .app пакет.".

Definition cmd_list (a : list_args) : M H unit :=
  let dmg := of_str (list_dmg a) in
  with_tempdir "pokerok_mnt_" (fun tmp =>
    md <- hdiutil_attach dmg (Some (of_str tmp)) ;;
    let '(mp, dev) := md in
    try_finally
      (print ("Содержимое " +:+ to_str mp +:+ ":") ;;;
       lines <- list_top mp ;;
       print_all (List.map (fun line => "  " +:+ " " +:+ line) lines))
      (hdiutil_detach dev)).

Definition cmd_copy (a : copy_args) : M H unit :=
  let dmg := of_str (copy_dmg a) in
  dest <- lift (expanduser os (of_str (copy_dest a))) ;;
  with_tempdir "pokerok_mnt_" (fun tmp =>
    md <- hdiutil_attach dmg (Some (of_str tmp)) ;;
    let '(mp, dev) := md in
    try_finally
      (app <- find_app_bundle mp ;;
       match app with
       | None => raise no_app
       | Some app =>
           out <- copy_app app dest (copy_dry_run a) ;;
           print ((if copy_dry_run a then "[DRY-RUN] " else "") +:+ "Готово: "
                  +:+ to_str out)
       end)
      (hdiutil_detach dev)).

Definition verdict (ok : bool) : string := if ok then "OK" else "FAIL".

Definition cmd_verify (a : verify_args) : M H unit :=
  let dmg := of_str (verify_dmg a) in
  with_tempdir "pokerok_mnt_" (fun tmp =>
    md <- hdiutil_attach dmg (Some (of_str tmp)) ;;
    let '(mp, dev) := md in
    try_finally
      (app <- find_app_bundle mp ;;
       match app with
       | None => raise no_app
       | Some app =>
           print ("Проверяем: " +:+ to_str app) ;;;
           gate <- spctl_assess app ;;
           print ("Gatekeeper: " +:+ verdict (fst gate) +:+ " — " +:+ snd gate) ;;;
           sign <- codesign_verify app ;;
           print ("codesign:   " +:+ verdict (fst sign) +:+ " — " +:+ snd sign)
       end)
      (hdiutil_detach dev)).

End Program.

(** * Vocabulary of the properties *)

Definition detach_cmd (target : string) : list string :=
  ["hdiutil"; "detach"; target].

Definition force_cmd (target : string) : list string :=
  ["hdiutil"; "detach"; "-force"; target].



Definition mount_cmd (dmg : string) (tmp : string) : list string :=
  attach_args (of_str dmg) ++ ["-mountpoint"; to_str (of_str tmp)].

(** The one way of ending that [subprocess.run] reports with
    [CalledProcessError]: the tool ran, what it wrote was decoded, and
    its exit status is not zero. *)
Definition exited_nonzero (o : outcome) : bool :=
  match o with
  | Exited rc _ _ => negb (rc =? 0)%Z
  | Undecodable _ => false
  | NotLaunched _ => false
  end.

(** What [run cmd True] makes of an outcome, the value left aside. *)
Definition checked (cmd : list string) (o : outcome) : result unit :=
  match o with
  | Exited rc out err =>
      if (rc =? 0)%Z then Ok tt else Raise (CalledProcessError rc cmd out err)
  | Undecodable _ => Raise UnicodeDecodeError
  | NotLaunched e => Raise (OSError e)
  end.









(** The mount point of an entry, if it has one. *)
Definition mount_of (ent : entity) : option Path :=
  of_str <$> ent !! "mount-point".

(** The device node of an entry, if it has one. *)
Definition device_of (ent : entity) : option string := ent !! "dev-entry".

(** Does the content hint of the entry name an HFS volume? *)
Definition hfs_hint (ent : entity) : bool :=
  Py.startswith "Apple_HFS" (default "" (ent !! "content-hint")).

(** The device node of an entry whose hint names an HFS volume. *)
Definition hfs_device_of (ent : entity) : option string :=
  if hfs_hint ent then device_of ent else None.

(** The last value [f] gives along a list, and the first. *)
Fixpoint last_some {A B} (f : A -> option B) (l : list A) : option B :=
  match l with
  | [] => None
  | x :: r =>
      match last_some f r with
      | Some y => Some y
      | None => f x
      end
  end.

Fixpoint first_some {A B} (f : A -> option B) (l : list A) : option B :=
  match l with
  | [] => None
  | x :: r =>
      match f x with
      | Some y => Some y
      | None => first_some f r
      end
  end.

(** What [hdiutil_attach] settles on, after its fallbacks. *)
Definition chosen_mnt (ents : list entity) : option Path :=
  fallback_mnt ents (fst (scan_entities ents)).

Definition chosen_device (ents : list entity) : option string :=
  fallback_device ents (snd (scan_entities ents)).

(** A mount point is determined when there is one; a device identifier
    when there is one and it is not the empty string. *)
Definition undetermined (ents : list entity) : Prop :=
  chosen_mnt ents = None \/ truthy_opt (chosen_device ents) = false.

Definition resolution_error {A} (r : result A) : Prop :=
  exists msg, r = Raise (RuntimeError msg).

(** The report of the second claim's failing input: an HFS volume
    mounted at one place, then a volume of another kind mounted at
    another. *)
Definition two_volumes : list entity :=
  [ {[ "dev-entry" := "/dev/disk4"; "content-hint" := "GUID_partition_scheme" ]};
    {[ "dev-entry" := "/dev/disk4s1"; "content-hint" := "Apple_HFS";
       "mount-point" := "/Volumes/PokerOK" ]};
    {[ "dev-entry" := "/dev/disk4s2"; "content-hint" := "DOS_FAT_32";
       "mount-point" := "/Volumes/EXTRAS" ]} ].

(** [sorted] on the names alone. *)
Fixpoint insert_name (x : string) (l : list string) : list string :=
  match l with
  | [] => [x]
  | y :: l' => if String.ltb y x then y :: insert_name x l' else x :: l
  end.

Definition sort_names (l : list string) : list string :=
  List.fold_right insert_name [] l.

(** The line [list_top] makes for the child called [c]. *)
Definition top_line (fs : FS.fsys) (mp : Path) (c : string) : string :=
  (if FS.is_dir fs (child mp c) then "[D]" else "[F]") +:+ " " +:+ c.

(** Does a name match [*.app]? *)
Definition is_app (c : string) : bool := Py.endswith ".app" c.

(** [reach n rel m]: from [n], the names [rel] lead down through real
    directories to [m]. *)
Inductive reach : FS.node -> list string -> FS.node -> Prop :=
| reach_here (n : FS.node) : reach n [] n
| reach_step (es : list (string * FS.node)) (c : string)
    (sub : list (string * FS.node)) (rel : list string) (m : FS.node) :
    List.In (c, FS.Dir sub) es -> reach (FS.Dir sub) rel m ->
    reach (FS.Dir es) (c :: rel) m.

(** [p] with more parts. *)
Definition extend (p : Path) (rel : list string) : Path :=
  {| anchored := anchored p; parts := parts p ++ rel |}.

(** An entry of any kind named [c], matching [*.app], in a directory
    that [rel] leads to from the directory with entries [es]; [q] is its
    path when [mp] is the path of that directory. *)
Definition app_entry (mp : Path) (es : list (string * FS.node)) (q : Path) : Prop :=
  exists rel des c m,
    reach (FS.Dir es) rel (FS.Dir des) /\ List.In (c, m) des
    /\ is_app c = true /\ q = child (extend mp rel) c.

(** Kinds of nodes: what a lookup can tell apart on its way. *)
Inductive kind := KFile | KLink (target : Path) | KDir.

Definition shape (n : option FS.node) : option kind :=
  match n with
  | None => None
  | Some (FS.File _) => Some KFile
  | Some (FS.Link t) => Some (KLink t)
  | Some (FS.Dir _) => Some KDir
  end.

(** A lookup (following links) that stays clear of the location [away]
    and of everything below it: it gives up as soon as it stands there or
    would have to look there. *)
Fixpoint walk_avoiding (away : list string) (fuel : nat) (r : FS.node)
    (cur rest : list string) {struct fuel} : oserror + list string :=
  match fuel with
  | O => inl LoopError
  | S fuel' =>
      (fix go (cur rest : list string) {struct rest} : oserror + list string :=
         if FS.is_prefix away cur then inl BusyError
         else
           match rest with
           | [] => inr cur
           | c :: rest' =>
               match FS.get r cur with
               | Some (FS.Dir es) =>
                   if FS.dot c then go cur rest'
                   else if FS.dotdot c then go (List.removelast cur) rest'
                   else if FS.is_prefix away (cur ++ [c]) then inl BusyError
                   else
                     match FS.assoc c es with
                     | None => inl FileNotFoundError
                     | Some (FS.Link t) =>
                         walk_avoiding away fuel' r
                           (if anchored t then [] else cur) (parts t ++ rest')
                     | Some _ => go (cur ++ [c]) rest'
                     end
               | Some _ => inl NotADirectoryError
               | None => inl FileNotFoundError
               end
           end) cur rest
  end.

Definition namei_avoiding (away : list string) (fs : FS.fsys) (p : Path)
    : oserror + list string :=
  walk_avoiding away (S FS.MAXSYMLINKS) (FS.root fs) (FS.start fs p) (parts p).

(** Two trees that a lookup clear of [away] cannot tell apart. *)
Definition agree (away : list string) (r r' : FS.node) : Prop :=
  forall q, FS.is_prefix away q = false -> shape (FS.get r q) = shape (FS.get r' q).

(** A rewriting of a directory's entries that leaves every name but [c]
    as it was. *)
Definition keeps (c : string)
    (f : list (string * FS.node) -> list (string * FS.node)) : Prop :=
  forall es x, x <> c -> FS.assoc x (f es) = FS.assoc x es.

(** A single, ordinary name: what [p.name] is for the path of a bundle
    that a scan has yielded. *)
Definition plain (c : string) : Prop :=
  of_str c = mkPath false [c] /\ FS.dot c = false /\ FS.dotdot c = false.

(** The tree after a bundle with entries [ses] has been put at the free
    name [c] of the directory at [d]. *)
Definition installed (r : FS.node) (d : list string) (c : string)
    (ses : list (string * FS.node)) : FS.node :=
  FS.update (FS.update r d (FS.add_entry c (FS.Dir []))) (d ++ [c]) (fun old => old ++ ses).

Definition raises {A} (r : result A) : Prop := exists e, r = Raise e.

Section Sessions.

Context {H : Type} (os : Platform H).

(** The guarded blocks of the three subcommands, as they stand between
    [try:] and [finally:]. *)
Definition list_block (mp : Path) : M H unit :=
  print ("Содержимое " +:+ to_str mp +:+ ":") ;;;
  lines <- list_top mp ;;
  print_all (List.map (fun line => "  " +:+ " " +:+ line) lines).

Definition copy_block (dest : Path) (dry_run : bool) (mp : Path) : M H unit :=
  app <- find_app_bundle os mp ;;
  match app with
  | None => raise no_app
  | Some app =>
      out <- copy_app app dest dry_run ;;
      print ((if dry_run then "[DRY-RUN] " else "") +:+ "Готово: " +:+ to_str out)
  end.

Definition verify_block (mp : Path) : M H unit :=
  app <- find_app_bundle os mp ;;
  match app with
  | None => raise no_app
  | Some app =>
      print ("Проверяем: " +:+ to_str app) ;;;
      gate <- spctl_assess os app ;;
      print ("Gatekeeper: " +:+ verdict (fst gate) +:+ " — " +:+ snd gate) ;;;
      sign <- codesign_verify os app ;;
      print ("codesign:   " +:+ verdict (fst sign) +:+ " — " +:+ snd sign)
  end.

(** The frame the three subcommands share around their block. *)
Definition session (dmg : string) (block : Path -> M H unit) : M H unit :=
  with_tempdir os "pokerok_mnt_" (fun tmp =>
    md <- hdiutil_attach os (of_str dmg) (Some (of_str tmp)) ;;
    let '(mp, dev) := md in
    try_finally (block mp) (hdiutil_detach os dev)).

(** [hdiutil_attach] up to the entities it reads from the report. *)
Definition attach_report (dmg : Path) (mountpoint : option Path)
    : M H (list entity) :=
  cmd <- match mountpoint with
         | Some mp =>
             on_files (FS.Path_mkdir mp) ;;;
             ret (attach_args dmg ++ ["-mountpoint"; to_str mp])
         | None => ret (attach_args dmg)
         end ;;
  res <- run os cmd true ;;
  pl <- lift (match loads os (stdout res) with
              | Some pl => Ok pl
              | None => Raise InvalidFileException
              end) ;;
  ret (default [] pl).

(** The world after [tempfile] has answered. *)
Definition after_mkdtemp (w : World H) (h : H) (fs : FS.fsys) : World H :=
  mkWorld fs h (printed w) (log w).

(** Release on every path, for a subcommand [cmd] on the image [dmg]
    whose guarded block is [block].  Read along the run from [w]:
    - no temporary directory: nothing is run at all;
    - attach raises: the subcommand raises, and apart from the attach
      command itself nothing was run, so no detach;
    - attach returns [(mp, dev)]: whatever the block does from there and
      however it ends, [hdiutil_detach dev] runs in the world the block
      left, its commands are the last ones of the run, and a block that
      raised makes the subcommand raise. *)
Definition releases_on_all_paths (dmg : string) (block : Path -> M H unit)
    (cmd : M H unit) : Prop :=
  forall w : World H,
    match mkdtemp os "pokerok_mnt_" (hidden w) (files w) with
    | (h0, fs0, Raise e) => cmd w = (after_mkdtemp w h0 fs0, Raise e)
    | (h0, fs0, Ok tmp) =>
        match hdiutil_attach os (of_str dmg) (Some (of_str tmp))
                (after_mkdtemp w h0 fs0) with
        | (w1, Raise e) =>
            raises (snd (cmd w))
            /\ log (fst (cmd w)) = log w1
            /\ (log w1 = log w \/ log w1 = log w ++ [mount_cmd dmg tmp])
        | (w1, Ok (mp, dev)) =>
            let '(w2, r2) := block mp w1 in
            let '(w3, r3) := hdiutil_detach os dev w2 in
            log (fst (cmd w)) = log w3
            /\ (log w3 = log w2 ++ [detach_cmd dev]
                \/ log w3 = log w2 ++ [detach_cmd dev; force_cmd dev])
            /\ (raises r2 -> raises (snd (cmd w)))
        end
    end.

End Sessions.

(** * The rest of the script

    The functions the subcommands [hash], [info], [mount] and [detach]
    are made of, and [main].  [cmd_hash] itself formats the size as a
    floating-point number and is left out; [build_parser] only
    configures [argparse]. *)

(** ** Hashing a file *)

(** [f.read(n)] on a regular file: the next [n] bytes, fewer at the end
    of the file; the second component is what is left to read. *)
Fixpoint read (n : N) (data : string) : string * string :=
  match data with
  | EmptyString => (EmptyString, EmptyString)
  | String c rest =>
      if (n =? 0)%N then (EmptyString, data)
      else let '(chunk, remaining) := read (N.pred n) rest in (String c chunk, remaining)
  end.

(** The size of the chunks [sha256sum] reads: [1024 * 1024]. *)
Definition CHUNK : N := 1024 * 1024.

Section Hashing.

(** [hashlib.sha256]: a fresh hash object, [h.update(bytes)] and
    [h.hexdigest()]. *)
Context {state : Type} (sha256 : state)
  (update : state -> string -> state) (hexdigest : state -> string).

(** The loop [for chunk in iter(lambda: f.read(size), b'')]: it ends
    with the first empty chunk.  Every other chunk takes at least one
    byte off the file, so [fuel] beyond the length of the file is never
    used up. *)
Fixpoint feed (fuel : nat) (size : N) (data : string) (h : state) (total : N)
    : state * N :=
  match fuel with
  | O => (h, total)
  | S fuel' =>
      let '(chunk, remaining) := read size data in
      if Py.truthy chunk
      then feed fuel' size remaining (update h chunk)
             (total + N.of_nat (String.length chunk))
      else (h, total)
  end.

Definition sha256sum {H : Type} (path : Path) : M H (string * N) :=
  fun w =>
    match FS.stat (files w) path with
    | inr (FS.File data) =>
        let '(h, total) := feed (S (String.length data)) CHUNK data sha256 0%N in
        (w, Ok (hexdigest h, total))
    | inr (FS.Dir _) => (w, Raise (OSError IsADirectoryError))
    | inr (FS.Link _) => (w, Raise (OSError LoopError))
    | inl e => (w, Raise (OSError e))
    end.

End Hashing.

(** ** The image descriptor *)

(** The keys [cmd_info] shows, with their labels, in the order of the
    dictionary [fields]. *)
Definition info_fields : list (string * string) :=
  [("Format", "Format");
   ("Block Count", "block-count");
   ("Sector Size", "sector-size");
   ("Checksum Type", "checksum-type");
   ("Checksum", "checksum");
   ("Partitions", "Partitions");
   ("Software License Agreement", "software-license-agreement")].

Record info_args := { info_dmg : string }.
Record mount_args := { mount_dmg : string; mount_mountpoint : option string }.
Record detach_args := { detach_device : option string; detach_mountpoint : option string }.

Section Info.

(** What [plistlib.loads] makes of the descriptor: a dictionary of
    values of some type [V] ([None] where it cannot read it), and
    [str(v)] for such a value. *)
Context {H : Type} (os : Platform H)
  {V : Type} (loads_info : string -> option (gmap string V)) (show : V -> string).

Definition imageinfo_cmd (dmg : Path) : list string :=
  ["hdiutil"; "imageinfo"; "-plist"; to_str dmg].

Definition hdiutil_imageinfo_plist (dmg : Path) : M H (gmap string V) :=
  res <- run os (imageinfo_cmd dmg) true ;;
  lift (match loads_info (stdout res) with
        | Some pl => Ok pl
        | None => Raise InvalidFileException
        end).

(** [for k, v in fields.items(): if v is not None: print(...)], where
    [v] is [pl.get(key)]. *)
Fixpoint print_fields (pl : gmap string V) (fields : list (string * string))
    : M H unit :=
  match fields with
  | [] => ret tt
  | (k, key) :: rest =>
      match pl !! key with
      | Some v => print ("- " +:+ k +:+ ": " +:+ show v)
      | None => ret tt
      end ;;;
      print_fields pl rest
  end.

Definition cmd_info (a : info_args) : M H unit :=
  pl <- hdiutil_imageinfo_plist (of_str (info_dmg a)) ;;
  print ("Информация об образе: " +:+ info_dmg a) ;;;
  print_fields pl info_fields.

End Info.

(** ** Mounting and leaving mounted *)

Section Mount.

Context {H : Type} (os : Platform H).

(** [tempfile.mkdtemp(prefix=...)]. *)
Definition make_tempdir (prefix : string) : M H string :=
  fun w =>
    let '(h', fs', r) := mkdtemp os prefix (hidden w) (files w) in
    (mkWorld fs' h' (printed w) (log w), r).

Definition newline : string := Py.chr 10.

Definition cmd_mount (a : mount_args) : M H unit :=
  let dmg := of_str (mount_dmg a) in
  mnt <- (if truthy_opt (mount_mountpoint a)
          then ret (of_str (default "" (mount_mountpoint a)))
          else tmp <- make_tempdir "pokerok_mnt_" ;; ret (of_str tmp)) ;;
  md <- hdiutil_attach os dmg (Some mnt) ;;
  let '(mp, dev) := md in
  print ("Смонтировано: " +:+ to_str mp +:+ newline +:+ "Устройство: " +:+ dev) ;;;
  print "Подсказка: для отмонтирования используйте: detach -m <mountpoint> или detach -dev <device>".

End Mount.

(** ** The top level: standard error and the end of the process *)

(** How a call ends at the top level: it returns, it raises an
    exception, or it raises [SystemExit] with a code. *)
Inductive ending :=
| Returned
| Raised (e : exn)
| SystemExit (code : Z).

(** The world together with what has been written to standard error. *)
Record Top (H : Type) := mkTop {
  world : World H;
  errors : list string
}.
Arguments mkTop {H} _ _.
Arguments world {H} _.
Arguments errors {H} _.

Section TopLevel.

Context {H : Type} (os : Platform H).

Definition T : Type := Top H -> Top H * ending.

(** A subcommand that knows nothing of standard error. *)
Definition at_top (c : M H unit) : T :=
  fun t =>
    let '(w', r) := c (world t) in
    (mkTop w' (errors t),
     match r with Ok _ => Returned | Raise e => Raised e end).

(** [print(line, file=sys.stderr)]. *)
Definition eprint (line : string) (t : Top H) : Top H :=
  mkTop (world t) (errors t ++ [line]).

(** The target [cmd_detach] settles on: the device if it is given and
    not empty, else the mount point if it is given and not empty. *)
Definition detach_target (a : detach_args) : option string :=
  if truthy_opt (detach_device a) then detach_device a
  else if truthy_opt (detach_mountpoint a) then detach_mountpoint a
  else None.

Definition cmd_detach (a : detach_args) : T :=
  fun t =>
    match detach_target a with
    | Some target =>
        at_top (hdiutil_detach os target ;;; print ("Отмонтировано: " +:+ target)) t
    | None =>
        (eprint "Укажите -dev ИЛИ -m для отмонтирования." t, SystemExit 2)
    end.

(** [str(e)] for the exceptions the script raises itself; [describe]
    stands for what the libraries make of theirs. *)
Definition str_exn (describe : exn -> string) (e : exn) : string :=
  match e with
  | RuntimeError msg => msg
  | _ => describe e
  end.

(** [main], from the parsed arguments on: [func] is [args.func(args)].
    The result is the code [main] ends with: [0] when it returns, else
    the argument of [sys.exit]. *)
Definition main (describe : exn -> string) (platform : string) (func : T)
    : Top H -> Top H * Z :=
  fun t =>
    let t0 :=
      if String.eqb platform "darwin" then t
      else eprint "Внимание: этот скрипт рассчитан на macOS (darwin)." t in
    match func t0 with
    | (t1, Returned) => (t1, 0%Z)
    | (t1, SystemExit code) => (t1, code)
    | (t1, Raised (CalledProcessError rc cmd out err)) =>
        let t2 := eprint ("Команда завершилась ошибкой [" +:+ pretty rc +:+ "]: "
                          +:+ Py.join " " cmd) t1 in
        let t3 := if Py.truthy out then eprint ("STDOUT:" +:+ newline +:+ out) t2 else t2 in
        let t4 := if Py.truthy err then eprint ("STDERR:" +:+ newline +:+ err) t3 else t3 in
        (t4, rc)
    | (t1, Raised e) => (eprint ("Ошибка: " +:+ str_exn describe e) t1, 1%Z)
    end.

End TopLevel.

(** * Vocabulary of the further properties *)

(** The outcome of a [with] block around a [try/finally]: what the
    removal of the temporary directory raises goes first, then what the
    detach raises, then what the guarded block did. *)
Definition last_word {A} (cleanup_result detach_result : result unit)
    (block_result : result A) : result A :=
  match cleanup_result with
  | Raise e => Raise e
  | Ok _ =>
      match detach_result with
      | Raise e => Raise e
      | Ok _ => block_result
      end
  end.

Definition is_detach (cmd : list string) : bool :=
  match cmd with
  | "hdiutil" :: "detach" :: _ => true
  | _ => false
  end.

Section MoreSessions.

Context {H : Type} (os : Platform H).

(** Every run of the subcommand [cmd] that got its temporary directory
    ends with the removal of that directory: right after a failed
    attach, and else after the detach that follows the block.  The
    state of the system and of the disk at the end is the one the
    removal leaves, and the outcome is the [last_word]. *)
Definition ends_with_cleanup (dmg : string) (block : Path -> M H unit)
    (cmd : M H unit) : Prop :=
  forall w : World H,
    match mkdtemp os "pokerok_mnt_" (hidden w) (files w) with
    | (h0, fs0, Raise e) => cmd w = (after_mkdtemp w h0 fs0, Raise e)
    | (h0, fs0, Ok tmp) =>
        match hdiutil_attach os (of_str dmg) (Some (of_str tmp))
                (after_mkdtemp w h0 fs0) with
        | (w1, Raise e) =>
            let '(h4, fs4, r4) := cleanup os tmp (hidden w1) (files w1) in
            cmd w = (mkWorld fs4 h4 (printed w1) (log w1),
                     last_word r4 (Ok tt) (Raise e))
        | (w1, Ok (mp, dev)) =>
            let '(w2, r2) := block mp w1 in
            let '(w3, r3) := hdiutil_detach os dev w2 in
            let '(h4, fs4, r4) := cleanup os tmp (hidden w3) (files w3) in
            cmd w = (mkWorld fs4 h4 (printed w3) (log w3), last_word r4 r3 r2)
        end
    end.

End MoreSessions.

(** The lines [cmd_info] prints for a descriptor, after the header. *)
Definition info_lines {V} (show : V -> string) (pl : gmap string V)
    (fields : list (string * string)) : list string :=
  omap (fun kk => (fun v => "- " +:+ fst kk +:+ ": " +:+ show v) <$> pl !! snd kk)
    fields.

(** The pieces a file is read in: all of [size] bytes but the last,
    which is what remains. *)
Fixpoint chunks (fuel : nat) (size : N) (data : string) : list string :=
  match fuel with
  | O => []
  | S fuel' =>
      let '(chunk, remaining) := read size data in
      if Py.truthy chunk then chunk :: chunks fuel' size remaining else []
  end.

(** What [main] writes to standard error for a failed command. *)
Definition failure_report (rc : Z) (cmd : list string) (out err : string)
    : list string :=
  ["Команда завершилась ошибкой [" +:+ pretty rc +:+ "]: " +:+ Py.join " " cmd]
  ++ (if Py.truthy out then ["STDOUT:" +:+ newline +:+ out] else [])
  ++ (if Py.truthy err then ["STDERR:" +:+ newline +:+ err] else []).

(** What [main] makes of the way a subcommand ended: the lines it
    writes to standard error, and the code it ends with. *)
Definition error_lines (describe : exn -> string) (r : result unit) : list string :=
  match r with
  | Ok _ => []
  | Raise (CalledProcessError rc cmd out err) => failure_report rc cmd out err
  | Raise e => ["Ошибка: " +:+ str_exn describe e]
  end.

Definition exit_code (r : result unit) : Z :=
  match r with
  | Ok _ => 0
  | Raise (CalledProcessError rc _ _ _) => rc
  | Raise _ => 1
  end.

Section MountVocabulary.

Context {H : Type} (os : Platform H).

(** What [cmd_mount] does once the mount point is chosen. *)
Definition mount_at (dmg mnt : string) (w : World H) : World H * result unit :=
  match hdiutil_attach os (of_str dmg) (Some (of_str mnt)) w with
  | (w1, Ok (mp, dev)) =>
      (mkWorld (files w1) (hidden w1)
         (printed w1 ++
          ["Смонтировано: " +:+ to_str mp +:+ newline +:+ "Устройство: " +:+ dev;
           "Подсказка: для отмонтирования используйте: detach -m <mountpoint> или detach -dev <device>"])
         (log w1), Ok tt)
  | (w1, Raise e) => (w1, Raise e)
  end.

End MountVocabulary.

(** The concatenation of the pieces. *)
Definition glue (cs : list string) : string :=
  List.fold_right String.append EmptyString cs.


(** * A small platform and a small disk, for running the script *)

Module Demo.

Import FS.

(** The bundle, and what the mounted image holds. *)
Definition bundle : list (string * node) :=
  [("Contents",
    Dir [("MacOS", Dir [("PokerOK", File "binary")]);
         ("Current", Link (mkPath false ["MacOS"]))])].

Definition image : list (string * node) :=
  [("README.txt", File "read me");
   ("PokerOK.app", Dir bundle);
   ("Applications", Link (mkPath true ["Applications"]))].

Definition disk : fsys :=
  mkFs (Dir [("Applications", Dir [("PokerOK.app", Dir [("stale", File "old")])]);
             ("tmp", Dir []);
             ("Users", Dir [("me", Dir [])])])
       ["Users"; "me"].

Definition mnt : list string := ["tmp"; "pokerok_mnt_demo"].

Definition report : list entity :=
  [ {[ "dev-entry" := "/dev/disk4"; "content-hint" := "GUID_partition_scheme" ]};
    {[ "dev-entry" := "/dev/disk4s1"; "content-hint" := "Apple_HFS";
       "mount-point" := "/tmp/pokerok_mnt_demo" ]} ].

(** The system state besides the files: is the image attached? *)
Definition demo_exec (cmd : list string) (attached : bool) (fs : fsys)
    : bool * fsys * outcome :=
  match cmd with
  | "hdiutil" :: "attach" :: _ =>
      (true, with_root fs (update (root fs) mnt (fun _ => image)),
       Exited 0 "<plist/>" "")
  | "hdiutil" :: "detach" :: _ =>
      if attached
      then (false, with_root fs (update (root fs) mnt (fun _ => [])), Exited 0 "" "")
      else (false, fs, Exited 1 "" "hdiutil: detach failed - No such file or directory")
  | "spctl" :: _ => (attached, fs, Exited 3 "" "PokerOK.app: rejected
")
  | "codesign" :: _ => (attached, fs, Exited 0 "" "PokerOK.app: valid on disk
")
  | _ => (attached, fs, NotLaunched FileNotFoundError)
  end.

Definition demo_loads (s : string) : option (option (list entity)) :=
  if String.eqb s "<plist/>" then Some (Some report) else None.

Definition demo_mkdtemp (prefix : string) (attached : bool) (fs : fsys)
    : bool * fsys * result string :=
  match os_mkdir fs (of_str ("/tmp/" +:+ prefix +:+ "demo")) with
  | inr fs' => (attached, fs', Ok ("/tmp/" +:+ prefix +:+ "demo"))
  | inl e => (attached, fs, Raise (OSError e))
  end.

Definition demo_cleanup (tmp : string) (attached : bool) (fs : fsys)
    : bool * fsys * result unit :=
  let '(fs', r) := rmtree (of_str tmp) fs in (attached, fs', r).

Definition platform : Platform bool :=
  mkPlatform bool demo_exec demo_loads demo_mkdtemp demo_cleanup
    (fun p => Ok p) ScanOrder.

Definition world : World bool := mkWorld disk false [] [].

Definition tmp : string := "/tmp/pokerok_mnt_demo".

Definition app : Path := of_str "/tmp/pokerok_mnt_demo/PokerOK.app".

(** The world once the temporary directory is made and the image attached. *)
Definition attached : World bool :=
  fst (hdiutil_attach platform (of_str "pokerok.dmg") (Some (of_str tmp))
         (mkWorld (with_root disk (update (root disk) ["tmp"]
                      (add_entry "pokerok_mnt_demo" (Dir []))))
            false [] [])).

(** A mount point with the children A (a directory) and B (a file), the
    file first in the scan. *)
Definition ab_world : World bool :=
  mkWorld (mkFs (Dir [("Volumes",
                       Dir [("AB", Dir [("B", File "b"); ("A", Dir [])])])]) [])
    false [] [].

(** A mounted volume that carries an AppleDouble file next to the
    bundle. *)
Definition appledouble_world : World bool :=
  mkWorld
    (mkFs (Dir [("Volumes",
                 Dir [("PokerOK",
                       Dir [("._PokerOK.app", File "resource fork");
                            ("PokerOK.app",
                             Dir [("Contents", Dir [("Info.plist", File "<plist/>")])])])])])
          [])
    false [] [].

(** A disk where the name of the bundle in /Applications is a symbolic
    link to a directory kept elsewhere. *)
Definition linked_world : World bool :=
  mkWorld
    (mkFs (Dir [("Applications",
                 Dir [("PokerOK.app", Link (mkPath true ["opt"; "PokerOK.app"]))]);
                ("opt", Dir [("PokerOK.app", Dir [("stale", File "old")])]);
                ("Volumes", Dir [("PokerOK", Dir image)])])
          [])
    false [] [].

End Demo.

(** * More of the small platform *)

Module Demo2.

Import FS.

(** An image that holds no bundle. *)
Definition bare_image : list (string * node) :=
  [("README.txt", File "read me"); ("docs", Dir [("notes.txt", File "notes")])].

Definition bare_exec (cmd : list string) (attached : bool) (fs : fsys)
    : bool * fsys * outcome :=
  match cmd with
  | "hdiutil" :: "attach" :: _ =>
      (true, with_root fs (update (root fs) Demo.mnt (fun _ => bare_image)),
       Exited 0 "<plist/>" "")
  | _ => Demo.demo_exec cmd attached fs
  end.

Definition bare_platform : Platform bool :=
  mkPlatform bool bare_exec Demo.demo_loads Demo.demo_mkdtemp Demo.demo_cleanup
    (fun p => Ok p) StackOrder.

(** The disk once the temporary directory is made. *)
Definition with_tmp : fsys :=
  with_root Demo.disk
    (update (root Demo.disk) ["tmp"] (add_entry "pokerok_mnt_demo" (Dir []))).

Definition bare_attached : World bool :=
  fst (hdiutil_attach bare_platform (of_str "pokerok.dmg") (Some (of_str Demo.tmp))
         (mkWorld with_tmp false [] [])).

(** A volume on which the name of the bundle is carried by a regular
    file, next to an installed bundle of that name. *)
Definition file_bundle_world : World bool :=
  mkWorld
    (mkFs (Dir [("Applications",
                 Dir [("Other.app", Dir []);
                      ("PokerOK.app", Dir [("stale", File "old")])]);
                ("Volumes", Dir [("PokerOK", Dir [("PokerOK.app", File "not a bundle")])])])
          [])
    false [] [].

(** A disk where the name of the bundle in /Applications is a symbolic
    link to a regular file. *)
Definition file_linked_world : World bool :=
  mkWorld
    (mkFs (Dir [("Applications",
                 Dir [("PokerOK.app", Link (mkPath true ["opt"; "PokerOK.txt"]))]);
                ("opt", Dir [("PokerOK.txt", File "old")]);
                ("Volumes", Dir [("PokerOK", Dir Demo.image)])])
          [])
    false [] [].

(** A system without [hdiutil], [spctl] and [codesign]: no command can
    be started. *)
Definition elsewhere_exec (cmd : list string) (attached : bool) (fs : fsys)
    : bool * fsys * outcome :=
  (attached, fs, NotLaunched FileNotFoundError).

Definition elsewhere : Platform bool :=
  mkPlatform bool elsewhere_exec Demo.demo_loads Demo.demo_mkdtemp Demo.demo_cleanup
    (fun p => Ok p) ScanOrder.

(** A system whose tools answer a refusal in bytes that are not text in
    the encoding of the locale: [spctl] ends with status 3, a detach of
    a device that is not attached with status 1. *)
Definition garbled_exec (cmd : list string) (attached : bool) (fs : fsys)
    : bool * fsys * outcome :=
  match cmd with
  | "spctl" :: _ => (attached, fs, Undecodable 3)
  | "hdiutil" :: "detach" :: _ =>
      if attached then Demo.demo_exec cmd attached fs
      else (attached, fs, Undecodable 1)
  | _ => Demo.demo_exec cmd attached fs
  end.

Definition garbled : Platform bool :=
  mkPlatform bool garbled_exec Demo.demo_loads Demo.demo_mkdtemp Demo.demo_cleanup
    (fun p => Ok p) ScanOrder.



(** A hash that keeps all it is fed, to watch the feeding. *)
Definition toy_update (s chunk : string) : string := s +:+ chunk.

(** A report of an APFS image: no entry has an HFS hint. *)
Definition apfs_report : list entity :=
  [ {[ "dev-entry" := "/dev/disk4"; "content-hint" := "GUID_partition_scheme" ]};
    {[ "dev-entry" := "/dev/disk4s1"; "content-hint" := "Apple_APFS" ]};
    {[ "dev-entry" := "/dev/disk5"; "content-hint" := "EF57347C-0000-11AA-AA11-00306543ECAC" ]};
    {[ "dev-entry" := "/dev/disk5s1"; "content-hint" := "41504653-0000-11AA-AA11-00306543ECAC";
       "mount-point" := "/tmp/pokerok_mnt_demo" ]} ].

End Demo2.

(** * Properties *)

(** ** Commands, the log and the session *)

Section SessionProperties.

Context {H : Type} (os : Platform H).

Lemma run_log (cmd : list string) (check : bool) (w : World H) :
  log (fst (run os cmd check w)) = log w ++ [cmd]
  /\ printed (fst (run os cmd check w)) = printed w.
Proof.
  unfold run.
  destruct (exec os cmd (hidden w) (files w)) as [[h' fs'] o].
  destruct o as [rc out err|rc|e]; [destruct (check && negb (rc =? 0)%Z)| |]; auto.
Qed.

Lemma hdiutil_detach_outcome (w : World H) (target : string) :
  let '(h1, fs1, o1) := exec os (detach_cmd target) (hidden w) (files w) in
  let '(h2, fs2, o2) := exec os (force_cmd target) h1 fs1 in
  let '(w', r) := hdiutil_detach os target w in
  if exited_nonzero o1
  then log w' = log w ++ [detach_cmd target; force_cmd target]
       /\ files w' = fs2 /\ hidden w' = h2 /\ printed w' = printed w
       /\ r = checked (force_cmd target) o2
  else log w' = log w ++ [detach_cmd target]
       /\ files w' = fs1 /\ hidden w' = h1 /\ printed w' = printed w
       /\ r = checked (detach_cmd target) o1.
Proof.
  unfold hdiutil_detach, try_except_called, bind, run, ret, detach_cmd, force_cmd.
  destruct (exec os _ (hidden w) (files w)) as [[h1 fs1] o1] eqn:E1.
  destruct (exec os ["hdiutil"; "detach"; "-force"; target] h1 fs1)
    as [[h2 fs2] o2] eqn:E2.
  destruct o1 as [rc1 out1 err1|rc1|e1]; simpl.
  - destruct (rc1 =? 0)%Z eqn:Z1; simpl.
    + auto.
    + rewrite E2. destruct o2 as [rc2 out2 err2|rc2|e2]; simpl.
      * destruct (rc2 =? 0)%Z; simpl; rewrite <- app_assoc; auto.
      * rewrite <- app_assoc; auto.
      * rewrite <- app_assoc; auto.
  - auto.
  - auto.
Qed.

(** C6, as the code has it: [hdiutil_detach] first runs the plain
    detach.  It runs the forced detach, once, exactly when the plain
    one was started, wrote text that could be decoded and ended with a
    non-zero status; nothing else is run, and what the forced attempt
    raises is what the caller gets.  A plain detach that could not be
    started, or whose output could not be decoded, has failed as well,
    but its error goes to the caller with no second attempt. *)
Theorem hdiutil_detach_forced_retry_once (w : World H) (target : string) :
  let '(h1, fs1, o1) := exec os (detach_cmd target) (hidden w) (files w) in
  let '(h2, fs2, o2) := exec os (force_cmd target) h1 fs1 in
  let plain_only (r : result unit) :=
    hdiutil_detach os target w =
      (mkWorld fs1 h1 (printed w) (log w ++ [detach_cmd target]), r) in
  let forced (r : result unit) :=
    hdiutil_detach os target w =
      (mkWorld fs2 h2 (printed w) (log w ++ [detach_cmd target; force_cmd target]), r) in
  match o1 with
  | Exited rc1 out1 err1 =>
      if (rc1 =? 0)%Z then plain_only (Ok tt)
      else forced
             match o2 with
             | Exited rc2 out2 err2 =>
                 if (rc2 =? 0)%Z then Ok tt
                 else Raise (CalledProcessError rc2 (force_cmd target) out2 err2)
             | Undecodable _ => Raise UnicodeDecodeError
             | NotLaunched e => Raise (OSError e)
             end
  | Undecodable _ => plain_only (Raise UnicodeDecodeError)
  | NotLaunched e => plain_only (Raise (OSError e))
  end.
Proof.
  pose proof (hdiutil_detach_outcome w target) as P.
  destruct (exec os (detach_cmd target) (hidden w) (files w)) as [[h1 fs1] o1].
  destruct (exec os (force_cmd target) h1 fs1) as [[h2 fs2] o2].
  destruct (hdiutil_detach os target w) as [[fs' h' pr' lg'] r]. cbv zeta.
  destruct o1 as [rc1 out1 err1|rc1|e1]; simpl in P.
  - destruct (rc1 =? 0)%Z; simpl in P; destruct P as (-> & -> & -> & -> & ->);
      reflexivity.
  - destruct P as (-> & -> & -> & -> & ->); reflexivity.
  - destruct P as (-> & -> & -> & -> & ->); reflexivity.
Qed.

Lemma hdiutil_detach_log (dev : string) (w : World H) :
  log (fst (hdiutil_detach os dev w)) = log w ++ [detach_cmd dev]
  \/ log (fst (hdiutil_detach os dev w)) = log w ++ [detach_cmd dev; force_cmd dev].
Proof.
  pose proof (hdiutil_detach_outcome w dev) as P.
  destruct (exec os (detach_cmd dev) (hidden w) (files w)) as [[h1 fs1] o1].
  destruct (exec os (force_cmd dev) h1 fs1) as [[h2 fs2] o2].
  destruct (hdiutil_detach os dev w) as [w' r]. simpl.
  destruct (exited_nonzero o1); destruct P as [P _]; auto.
Qed.

Lemma hdiutil_attach_log (dmg : string) (tmp : string) (w : World H) :
  let w1 := fst (hdiutil_attach os (of_str dmg) (Some (of_str tmp)) w) in
  printed w1 = printed w
  /\ (log w1 = log w \/ log w1 = log w ++ [mount_cmd dmg tmp]).
Proof.
  unfold hdiutil_attach, bind, on_files, ret, lift, mount_cmd.
  destruct (FS.Path_mkdir (of_str tmp) (files w)) as [fs1 [[]|e]]; simpl; auto.
  match goal with |- context [run os ?c true ?w0] =>
    pose proof (run_log c true w0) as [L P];
    destruct (run os c true w0) as [w1 [res|e]] end; simpl in *; auto.
  destruct (loads os (stdout res)) as [pl|]; simpl; auto.
Qed.

Lemma cmd_list_session (a : list_args) :
  cmd_list os a = session os (list_dmg a) list_block.
Proof. reflexivity. Qed.

Lemma cmd_verify_session (a : verify_args) :
  cmd_verify os a = session os (verify_dmg a) (verify_block os).
Proof. reflexivity. Qed.

Lemma cmd_copy_session (a : copy_args) :
  cmd_copy os a =
  (dest <- lift (expanduser os (of_str (copy_dest a))) ;;
   session os (copy_dmg a) (copy_block os dest (copy_dry_run a))).
Proof. reflexivity. Qed.

Lemma session_releases (dmg : string) (block : Path -> M H unit) :
  releases_on_all_paths os dmg block (session os dmg block).
Proof.
  intros w. unfold session, with_tempdir, after_mkdtemp, try_finally, bind.
  cbv beta.
  destruct (mkdtemp os "pokerok_mnt_" (hidden w) (files w)) as [[h0 fs0] [tmp|e]];
    [|reflexivity].
  set (w0 := mkWorld fs0 h0 (printed w) (log w)).
  pose proof (hdiutil_attach_log dmg tmp w0) as [_ LA].
  destruct (hdiutil_attach os (of_str dmg) (Some (of_str tmp)) w0)
    as [w1 [[mp dev]|e]]; simpl in LA.
  - destruct (block mp w1) as [w2 r2].
    pose proof (hdiutil_detach_log dev w2) as LD.
    destruct (hdiutil_detach os dev w2) as [w3 r3]. simpl in LD.
    destruct r3 as [[]|e3];
      destruct (cleanup os tmp (hidden w3) (files w3)) as [[h' fs'] [[]|e]];
      simpl; (split; [reflexivity|split; [exact LD|]]).
    all: try (intros [e2 ->]); try intros _; eexists; reflexivity.
  - destruct (cleanup os tmp (hidden w1) (files w1)) as [[h' fs'] [[]|e']];
      simpl; (split; [eexists; reflexivity|split; [reflexivity|exact LA]]).
Qed.

(** C1: in [list], [copy] and [verify] the detach of the attached device
    runs on every path out of the guarded block, as the last commands of
    the run, before the subcommand returns or raises; when the attach
    raises, no detach is run.  For [copy], an error in expanding the
    destination ends the subcommand before anything is run. *)
Theorem detach_on_all_exit_paths :
  (forall a : list_args,
     releases_on_all_paths os (list_dmg a) list_block (cmd_list os a))
  /\ (forall a : copy_args,
        match expanduser os (of_str (copy_dest a)) with
        | Ok dest =>
            releases_on_all_paths os (copy_dmg a)
              (copy_block os dest (copy_dry_run a)) (cmd_copy os a)
        | Raise e => forall w, cmd_copy os a w = (w, Raise e)
        end)
  /\ (forall a : verify_args,
        releases_on_all_paths os (verify_dmg a) (verify_block os) (cmd_verify os a)).
Proof.
  split; [|split].
  - intros a. rewrite cmd_list_session. apply session_releases.
  - intros a. rewrite cmd_copy_session.
    destruct (expanduser os (of_str (copy_dest a))) as [dest|e] eqn:E.
    + pose proof (session_releases (copy_dmg a) (copy_block os dest (copy_dry_run a))) as S.
      intros w. specialize (S w). unfold bind at 1, lift. exact S.
    + intros w. reflexivity.
  - intros a. rewrite cmd_verify_session. apply session_releases.
Qed.

End SessionProperties.

(** ** Python strings: what [strip] removes *)

Section StringProperties.

Lemma length_append (a b : string) :
  String.length (a +:+ b) = (String.length a + String.length b)%nat.
Proof.
  induction a as [|c a IH]; [reflexivity|].
  change (S (String.length (a +:+ b)) = S (String.length a + String.length b)).
  rewrite IH. reflexivity.
Qed.

Lemma append_empty_r (s : string) : s +:+ "" = s.
Proof.
  induction s as [|c s IH]; [reflexivity|].
  change (String c (s +:+ "") = String c s). rewrite IH. reflexivity.
Qed.























End StringProperties.

(** ** The two checks *)

Section CheckProperties.

Context {H : Type} (os : Platform H).







End CheckProperties.

(** ** Reading the mount report *)

Section ReportProperties.

Lemma scan_fold (ents : list entity) (acc : option Path * option string) :
  List.fold_left scan_step ents acc =
    (match last_some mount_of ents with Some m => Some m | None => fst acc end,
     match last_some hfs_device_of ents with Some d => Some d | None => snd acc end).
Proof.
  revert acc. induction ents as [|e r IH]; intros [m d]; simpl.
  - reflexivity.
  - rewrite IH. clear IH.
    destruct (last_some mount_of r); destruct (last_some hfs_device_of r);
      unfold scan_step, mount_of, hfs_device_of, hfs_hint, device_of;
      cbn [fst snd];
      generalize (Py.startswith "Apple_HFS" (default "" (e !! "content-hint")));
      intros hh;
      destruct (e !! "mount-point"); destruct (e !! "dev-entry"); destruct hh;
      reflexivity.
Qed.

(** The loop leaves in [mnt] the mount point of the last entry that has
    one, whatever its content hint, and in [device] the device node of
    the last entry that has one and whose hint names an HFS volume. *)
Lemma scan_entities_last (ents : list entity) :
  scan_entities ents = (last_some mount_of ents, last_some hfs_device_of ents).
Proof.
  unfold scan_entities. rewrite scan_fold. simpl.
  destruct (last_some mount_of ents); destruct (last_some hfs_device_of ents);
    reflexivity.
Qed.

Lemma first_with_first_some (key : string) (ents : list entity) :
  first_with key ents = first_some (fun ent => ent !! key) ents.
Proof. induction ents as [|e r IH]; simpl; [|rewrite IH]; reflexivity. Qed.

Lemma last_some_None {A B} (f : A -> option B) (l : list A) :
  last_some f l = None <-> List.Forall (fun x => f x = None) l.
Proof.
  induction l as [|x r IH]; simpl.
  - split; auto.
  - destruct (last_some f r) eqn:E.
    + split; [discriminate|]. intros F. inversion F; subst.
      apply IH in H2. discriminate.
    + split.
      * intros Fx. constructor; [exact Fx|]. apply IH. reflexivity.
      * intros F. inversion F; auto.
Qed.

Lemma first_some_None {A B} (f : A -> option B) (l : list A) :
  first_some f l = None <-> List.Forall (fun x => f x = None) l.
Proof.
  induction l as [|x r IH]; simpl.
  - split; auto.
  - destruct (f x) eqn:E.
    + split; [discriminate|]. intros F. inversion F; congruence.
    + rewrite IH. split.
      * intros F. constructor; assumption.
      * intros F. inversion F; auto.
Qed.

Lemma fmap_first_some {A B C} (g : B -> C) (f : A -> option B) (l : list A) :
  g <$> first_some f l = first_some (fun x => g <$> f x) l.
Proof.
  induction l as [|x r IH]; simpl; [reflexivity|].
  destruct (f x); simpl; [reflexivity|exact IH].
Qed.

(** The fallback for the mount point never fires to any effect: it looks
    for an entry with a mount point exactly when the loop found none. *)
Lemma fallback_mnt_idle (ents : list entity) :
  chosen_mnt ents = last_some mount_of ents.
Proof.
  unfold chosen_mnt. rewrite scan_entities_last. simpl. unfold fallback_mnt.
  destruct (last_some mount_of ents) eqn:E; [reflexivity|].
  rewrite first_with_first_some, fmap_first_some.
  apply first_some_None. apply last_some_None in E. exact E.
Qed.

Lemma chosen_device_cases (ents : list entity) :
  chosen_device ents =
    if truthy_opt (last_some hfs_device_of ents) then last_some hfs_device_of ents
    else match first_some device_of ents with
         | Some d => Some d
         | None => last_some hfs_device_of ents
         end.
Proof.
  unfold chosen_device. rewrite scan_entities_last. simpl. unfold fallback_device.
  rewrite first_with_first_some. reflexivity.
Qed.

Lemma resolve_mount_cases (ents : list entity) :
  resolve_mount ents =
    match chosen_mnt ents with
    | Some m =>
        if truthy_opt (chosen_device ents) then Ok (m, default "" (chosen_device ents))
        else Raise (RuntimeError "Не удалось определить точку монтирования или устройство.")
    | None => Raise (RuntimeError "Не удалось определить точку монтирования или устройство.")
    end.
Proof.
  unfold resolve_mount, chosen_mnt, chosen_device.
  destruct (scan_entities ents) as [m d]. reflexivity.
Qed.

End ReportProperties.

Section AttachProperties.

Context {H : Type} (os : Platform H).

Lemma hdiutil_attach_report (dmg : Path) (mountpoint : option Path) (w : World H) :
  hdiutil_attach os dmg mountpoint w =
    match attach_report os dmg mountpoint w with
    | (w1, Ok ents) => (w1, resolve_mount ents)
    | (w1, Raise e) => (w1, Raise e)
    end.
Proof.
  unfold hdiutil_attach, attach_report, bind, lift, ret.
  destruct mountpoint as [mp|].
  - destruct (on_files (FS.Path_mkdir mp) w) as [w0 [[]|e]]; [|reflexivity].
    destruct (run os _ true w0) as [w1 [res|e]]; [|reflexivity].
    destruct (loads os (stdout res)); reflexivity.
  - destruct (run os _ true w) as [w1 [res|e]]; [|reflexivity].
    destruct (loads os (stdout res)); reflexivity.
Qed.

Lemma attach_report_errors (dmg : Path) (mountpoint : option Path) (w : World H) :
  ~ resolution_error (snd (attach_report os dmg mountpoint w)).
Proof.
  unfold attach_report, bind, lift, ret, on_files, run. intros [msg E].
  destruct mountpoint as [mp|].
  - destruct (FS.Path_mkdir mp (files w)) as [fs1 [[]|e]] eqn:M; simpl in E.
    + destruct (exec os _ _ _) as [[h' fs'] [rc out err|rc|e]]; simpl in E.
      * destruct (rc =? 0)%Z; simpl in E; [|discriminate].
        destruct (loads os out); simpl in E; discriminate.
      * discriminate.
      * discriminate.
    + unfold FS.Path_mkdir in M.
      assert (forall a rp fs fs1 e,
                 FS.mkdir_parents a rp fs = (fs1, Raise e) -> exists k, e = OSError k) as G.
      { clear. intros a rp. induction rp as [|c rp IH]; intros fs fs1 e; simpl.
        - destruct (FS.os_mkdir fs _) as [k|fs'].
          + destruct k; try destruct (FS.is_dir fs _); intros Q; inversion Q; eauto.
          + discriminate.
        - destruct (FS.os_mkdir fs _) as [k|fs'] eqn:K.
          + destruct k; try (destruct (FS.is_dir fs _); intros Q; inversion Q; eauto; fail).
            destruct (FS.mkdir_parents a rp fs) as [fs2 [[]|e2]] eqn:P.
            * destruct (FS.os_mkdir fs2 _) as [k2|fs3].
              -- destruct k2; try destruct (FS.is_dir fs2 _); intros Q; inversion Q; eauto.
              -- discriminate.
            * intros Q; inversion Q; subst. eapply IH; eauto.
          + discriminate. }
      apply G in M. destruct M as [k ->]. discriminate.
  - simpl in E.
    destruct (exec os _ _ _) as [[h' fs'] [rc out err|rc|e]]; simpl in E.
    + destruct (rc =? 0)%Z; simpl in E; [|discriminate].
      destruct (loads os out); simpl in E; discriminate.
    + discriminate.
    + discriminate.
Qed.

(** C5: [hdiutil_attach] ends with the resolution error exactly when the
    report was obtained and read and, after the fallbacks, the mount
    point or the device identifier is still undetermined; when both are
    determined it returns the pair.  No entry with a mount point is the
    only way to have none; no entry with a device node is the only way
    to have no device. *)
Theorem attach_raises_iff_undetermined (dmg : Path) (mountpoint : option Path)
    (w : World H) :
  (resolution_error (snd (hdiutil_attach os dmg mountpoint w)) <->
   exists ents, snd (attach_report os dmg mountpoint w) = Ok ents /\ undetermined ents)
  /\ (forall ents m d,
        snd (attach_report os dmg mountpoint w) = Ok ents ->
        chosen_mnt ents = Some m -> chosen_device ents = Some d -> d <> "" ->
        hdiutil_attach os dmg mountpoint w =
          (fst (attach_report os dmg mountpoint w), Ok (m, d)))
  /\ (forall ents,
        (chosen_mnt ents = None <->
         List.Forall (fun ent => ent !! "mount-point" = None) ents)
        /\ (chosen_device ents = None <->
            List.Forall (fun ent => ent !! "dev-entry" = None) ents)).
Proof.
  split; [|split].
  - rewrite hdiutil_attach_report.
    pose proof (attach_report_errors dmg mountpoint w) as NE.
    destruct (attach_report os dmg mountpoint w) as [w1 [ents|e]]; simpl in *.
    + rewrite resolve_mount_cases. unfold undetermined. split.
      * intros [msg E]. exists ents. split; [reflexivity|].
        destruct (chosen_mnt ents); [|left; reflexivity].
        destruct (truthy_opt (chosen_device ents)); [discriminate|right; reflexivity].
      * intros [ents' [E U]]. inversion E; subst ents'.
        destruct U as [U|U]; rewrite U.
        -- eexists; reflexivity.
        -- destruct (chosen_mnt ents); eexists; reflexivity.
    + split; [|intros [ents [E _]]; discriminate].
      intros [msg R]. exfalso. apply NE. exists msg. congruence.
  - intros ents m d E M D N. rewrite hdiutil_attach_report.
    destruct (attach_report os dmg mountpoint w) as [w1 [ents'|e]]; simpl in *;
      [|discriminate].
    inversion E; subst ents'. rewrite resolve_mount_cases, M, D. simpl.
    destruct d; [contradiction|reflexivity].
  - intros ents. split.
    + rewrite fallback_mnt_idle, last_some_None. unfold mount_of.
      split; intros F; eapply List.Forall_impl; try exact F; simpl; intros e;
        destruct (e !! "mount-point"); simpl; congruence.
    + rewrite chosen_device_cases.
      destruct (last_some hfs_device_of ents) as [d|] eqn:L.
      * assert (first_some device_of ents <> None) as NF.
        { intros F. apply first_some_None in F.
          assert (last_some hfs_device_of ents = None) as L'.
          { apply last_some_None. eapply List.Forall_impl; [|exact F]. simpl.
            intros e. unfold hfs_device_of. destruct (hfs_hint e); auto. }
          congruence. }
        split.
        -- destruct (truthy_opt (Some d)); [discriminate|].
           destruct (first_some device_of ents); [discriminate|contradiction].
        -- intros F. exfalso. apply NF. apply first_some_None. exact F.
      * simpl. rewrite <- (first_some_None device_of).
        destruct (first_some device_of ents); split; congruence.
Qed.

End AttachProperties.

(** ** The file system: lookup *)

Module FSFacts.

Import FS.

Lemma walk_eq (f : nat) (r : node) (follow : bool) (cur rest : list string) :
  walk (S f) r follow cur rest =
    match rest with
    | [] => inr cur
    | c :: rest' =>
        match get r cur with
        | Some (Dir es) =>
            if dot c then walk (S f) r follow cur rest'
            else if dotdot c then walk (S f) r follow (List.removelast cur) rest'
            else
              match assoc c es with
              | None => inl FileNotFoundError
              | Some (Link t) =>
                  if is_nil rest' && negb follow then inr (cur ++ [c])
                  else walk f r follow
                         (if anchored t then [] else cur) (parts t ++ rest')
              | Some _ => walk (S f) r follow (cur ++ [c]) rest'
              end
        | Some _ => inl NotADirectoryError
        | None => inl FileNotFoundError
        end
    end.
Proof. destruct rest; reflexivity. Qed.

Lemma walk_zero (r : node) (follow : bool) (cur rest : list string) :
  walk 0 r follow cur rest = inl LoopError.
Proof. reflexivity. Qed.

Lemma get_snoc (r : node) (p : list string) (c : string) :
  get r (p ++ [c]) =
    match get r p with
    | Some (Dir es) => assoc c es
    | _ => None
    end.
Proof.
  revert r. induction p as [|a p IH]; intros r; simpl.
  - destruct r; try reflexivity. destruct (assoc c entries); reflexivity.
  - destruct r; try reflexivity. destruct (assoc a entries); [apply IH|reflexivity].
Qed.

Lemma get_app (r : node) (p q : list string) :
  get r (p ++ q) = match get r p with Some n => get n q | None => None end.
Proof.
  revert r. induction p as [|a p IH]; intros r; simpl; [reflexivity|].
  destruct r; try reflexivity. destruct (assoc a entries); [apply IH|reflexivity].
Qed.

(** A path with one more part: the lookup of the longer path goes the
    way of the shorter one and then takes one step. *)
Lemma walk_snoc (f : nat) (r : node) (follow : bool)
    (cur rest q : list string) (c : string) (es : list (string * node)) :
  walk f r true cur rest = inr q ->
  get r q = Some (Dir es) ->
  dot c = false -> dotdot c = false ->
  match assoc c es with
  | None => walk f r follow cur (rest ++ [c]) = inl FileNotFoundError
  | Some (Link t) => follow = false -> walk f r follow cur (rest ++ [c]) = inr (q ++ [c])
  | Some _ => walk f r follow cur (rest ++ [c]) = inr (q ++ [c])
  end.
Proof.
  intros W G D DD. revert cur rest W.
  induction f as [|f IHf]; intros cur rest W; [discriminate|].
  revert cur W. induction rest as [|a rest IHr]; intros cur W.
  - rewrite walk_eq in W. inversion W; subst q. simpl app.
    rewrite walk_eq, G, D, DD.
    destruct (assoc c es) as [[d|t|es']|]; simpl; auto.
    intros ->. reflexivity.
  - rewrite walk_eq in W. simpl app.
    assert (forall X : oserror + list string,
              match assoc c es with
              | None => X = inl FileNotFoundError
              | Some (Link _) => follow = false -> X = inr (q ++ [c])
              | Some _ => X = inr (q ++ [c])
              end ->
              forall Y, Y = X ->
              match assoc c es with
              | None => Y = inl FileNotFoundError
              | Some (Link _) => follow = false -> Y = inr (q ++ [c])
              | Some _ => Y = inr (q ++ [c])
              end) as K.
    { intros X HX Y ->. exact HX. }
    destruct (get r cur) as [[d|t|es0]|] eqn:GC; try discriminate.
    destruct (dot a) eqn:Da.
    { eapply K; [apply (IHr cur W)|]. rewrite walk_eq, GC, Da. reflexivity. }
    destruct (dotdot a) eqn:DDa.
    { eapply K; [apply (IHr _ W)|]. rewrite walk_eq, GC, Da, DDa. reflexivity. }
    destruct (assoc a es0) as [[d|t|es1]|] eqn:A; try discriminate.
    + eapply K; [apply (IHr _ W)|]. rewrite walk_eq, GC, Da, DDa, A. reflexivity.
    + destruct rest as [|b rest]; simpl in W.
      * eapply K; [apply (IHf _ _ W)|].
        rewrite walk_eq, GC, Da, DDa, A. simpl. rewrite <- app_assoc. reflexivity.
      * eapply K; [apply (IHf _ _ W)|].
        rewrite walk_eq, GC, Da, DDa, A. simpl. rewrite <- app_assoc. reflexivity.
    + eapply K; [apply (IHr _ W)|]. rewrite walk_eq, GC, Da, DDa, A. reflexivity.
Qed.

(** What a lookup that follows links finds, a lookup that does not
    follow the last one finds too, or it finds the link itself. *)
Lemma walk_nofollow (f : nat) (r : node) (cur rest q : list string) (n : node) :
  walk f r true cur rest = inr q ->
  get r q = Some n ->
  exists q' n', walk f r false cur rest = inr q' /\ get r q' = Some n'.
Proof.
  intros W G. revert cur rest W.
  induction f as [|f IHf]; intros cur rest W; [discriminate|].
  revert cur W. induction rest as [|a rest IHr]; intros cur W.
  - rewrite walk_eq in W. inversion W; subst q. exists cur, n. split; auto.
  - rewrite walk_eq in W. rewrite walk_eq.
    destruct (get r cur) as [[d|t|es0]|] eqn:GC; try discriminate.
    destruct (dot a); [apply IHr; exact W|].
    destruct (dotdot a); [apply IHr; exact W|].
    destruct (assoc a es0) as [[d|t|es1]|] eqn:A; try discriminate.
    + apply IHr; exact W.
    + destruct rest as [|b rest]; simpl.
      * exists (cur ++ [a]), (Link t). split; [reflexivity|].
        rewrite get_snoc, GC. exact A.
      * simpl in W. apply IHf. exact W.
    + apply IHr; exact W.
Qed.

Lemma stat_child (fs : fsys) (p : Path) (c : string)
    (es : list (string * node)) (n : node) :
  stat fs p = inr (Dir es) ->
  dot c = false -> dotdot c = false ->
  assoc c es = Some n ->
  (forall t, n <> Link t) ->
  stat fs (child p c) = inr n /\ lstat fs (child p c) = inr n.
Proof.
  unfold stat, lstat, node_at, namei. intros S D DD A NL.
  destruct (walk _ _ true _ (parts p)) as [e|q] eqn:W; [discriminate|].
  destruct (get (root fs) q) as [m|] eqn:G; [|discriminate].
  inversion S; subst m. unfold child, start in *. cbn [anchored parts].
  pose proof (walk_snoc _ _ true _ _ _ c es W G D DD) as T.
  pose proof (walk_snoc _ _ false _ _ _ c es W G D DD) as F.
  rewrite A in T, F.
  assert (get (root fs) (q ++ [c]) = Some n) as GN by (rewrite get_snoc, G; exact A).
  destruct n as [d|t|es']; try (exfalso; eapply NL; reflexivity);
    rewrite T, F, GN; split; reflexivity.
Qed.

End FSFacts.

(** ** Order on names and [list_top] *)

Module OrderFacts.

Lemma ascii_compare_refl (a : ascii) : Ascii.compare a a = Eq.
Proof. unfold Ascii.compare. apply N.compare_refl. Qed.

Lemma ascii_compare_trans (a b c : ascii) :
  Ascii.compare a b = Lt -> Ascii.compare b c = Lt -> Ascii.compare a c = Lt.
Proof.
  unfold Ascii.compare. rewrite !N.compare_lt_iff. apply N.lt_trans.
Qed.

Lemma compare_refl (s : string) : String.compare s s = Eq.
Proof.
  induction s as [|a s IH]; simpl; [reflexivity|].
  rewrite ascii_compare_refl. exact IH.
Qed.

Lemma compare_trans (s1 s2 s3 : string) :
  String.compare s1 s2 = Lt -> String.compare s2 s3 = Lt ->
  String.compare s1 s3 = Lt.
Proof.
  revert s2 s3. induction s1 as [|a s1 IH]; intros [|b s2] [|c s3]; simpl;
    try discriminate; auto.
  destruct (Ascii.compare a b) eqn:AB; try discriminate;
    destruct (Ascii.compare b c) eqn:BC; try discriminate.
  - apply Ascii.compare_eq_iff in AB, BC. subst. rewrite ascii_compare_refl.
    apply IH.
  - apply Ascii.compare_eq_iff in AB. subst. rewrite BC. auto.
  - apply Ascii.compare_eq_iff in BC. subst. rewrite AB. auto.
  - rewrite (ascii_compare_trans _ _ _ AB BC). auto.
Qed.

Lemma leb_trans (a b c : string) :
  String.leb a b = true -> String.leb b c = true -> String.leb a c = true.
Proof.
  unfold String.leb.
  destruct (String.compare a b) eqn:AB; try discriminate;
    destruct (String.compare b c) eqn:BC; try discriminate; intros _ _.
  - apply String.compare_eq_iff in AB, BC. subst. rewrite compare_refl. reflexivity.
  - apply String.compare_eq_iff in AB. subst. rewrite BC. reflexivity.
  - apply String.compare_eq_iff in BC. subst. rewrite AB. reflexivity.
  - rewrite (compare_trans _ _ _ AB BC). reflexivity.
Qed.

Lemma ltb_leb (a b : string) : String.ltb a b = true -> String.leb a b = true.
Proof. unfold String.ltb, String.leb. destruct (String.compare a b); auto. Qed.

Lemma not_ltb_leb (a b : string) : String.ltb b a = false -> String.leb a b = true.
Proof.
  unfold String.ltb, String.leb. rewrite (String.compare_antisym a b).
  destruct (String.compare b a); simpl; auto.
Qed.

(** Two children of one directory compare as their names do. *)
Lemma siblings_ltb (p : Path) (a b : string) :
  Path_ltb (child p a) (child p b) = String.ltb a b.
Proof.
  unfold Path_ltb, cparts, child. simpl. rewrite !app_assoc.
  generalize ((if anchored p then ["/"] else []) ++ parts p). intros pre.
  induction pre as [|x pre IH]; simpl.
  - unfold String.ltb. destruct (String.compare a b); reflexivity.
  - rewrite compare_refl. exact IH.
Qed.

Lemma insert_siblings (p : Path) (x : string) (l : list string) :
  insert_sorted (child p x) (List.map (child p) l) =
  List.map (child p) (insert_name x l).
Proof.
  induction l as [|y l IH]; simpl; [reflexivity|].
  rewrite siblings_ltb. destruct (String.ltb y x); simpl; [rewrite IH|]; reflexivity.
Qed.

Lemma sorted_siblings (p : Path) (l : list string) :
  sorted (List.map (child p) l) = List.map (child p) (sort_names l).
Proof.
  induction l as [|x l IH]; simpl; [reflexivity|].
  unfold sorted, sort_names in *. simpl. rewrite IH. apply insert_siblings.
Qed.

Lemma insert_name_perm (x : string) (l : list string) :
  Permutation (insert_name x l) (x :: l).
Proof.
  induction l as [|y l IH]; simpl; [reflexivity|].
  destruct (String.ltb y x); [|reflexivity].
  rewrite IH. apply perm_swap.
Qed.

Lemma sort_names_perm (l : list string) : Permutation (sort_names l) l.
Proof.
  induction l as [|x l IH]; simpl; [reflexivity|].
  unfold sort_names in *. simpl. rewrite insert_name_perm. constructor. exact IH.
Qed.

Lemma insert_name_sorted (x : string) (l : list string) :
  StronglySorted (fun a b => String.leb a b = true) l ->
  StronglySorted (fun a b => String.leb a b = true) (insert_name x l).
Proof.
  induction l as [|y l IH]; intros S; simpl.
  - repeat constructor.
  - inversion S as [|? ? Sl Fy]; subst.
    destruct (String.ltb y x) eqn:L.
    + constructor; [apply IH; exact Sl|].
      eapply Permutation_Forall.
      * symmetry. apply insert_name_perm.
      * constructor; [apply ltb_leb; exact L|exact Fy].
    + constructor; [exact S|].
      assert (String.leb x y = true) as XY by (apply not_ltb_leb; exact L).
      constructor; [exact XY|].
      eapply List.Forall_impl; [|exact Fy]. simpl. intros z YZ.
      eapply leb_trans; eauto.
Qed.

Lemma sort_names_sorted (l : list string) :
  StronglySorted (fun a b => String.leb a b = true) (sort_names l).
Proof.
  induction l as [|x l IH]; simpl; [constructor|].
  unfold sort_names in *. simpl. apply insert_name_sorted. exact IH.
Qed.

Lemma name_child (p : Path) (c : string) : name (child p c) = c.
Proof. unfold name, child. simpl. apply List.last_last. Qed.

End OrderFacts.

Section ListProperties.

Context {H : Type}.

Import FS.

Lemma list_top_lines (w : World H) (mp : Path) (es : list (string * node)) :
  stat (files w) mp = inr (Dir es) ->
  list_top mp w =
    (w, Ok (List.map (top_line (files w) mp) (sort_names (List.map fst es)))).
Proof.
  intros S. unfold list_top, bind, read_files, ret, iterdir. rewrite S.
  f_equal. f_equal.
  rewrite <- (List.map_map fst (child mp)).
  rewrite OrderFacts.sorted_siblings, List.map_map.
  apply List.map_ext. intros c. unfold annotate, top_line, id.
  rewrite OrderFacts.name_child. reflexivity.
Qed.

(** C9: for a mount point that is a directory, [list_top] returns one
    line per immediate child, the lines ordered by name, each [[D]] or
    [[F]] followed by the name; a child that is a directory gets [[D]], a
    child that is a file gets [[F]].  For the children A (a directory) and
    B (a file), in whichever order the scan reports them, the result is
    [[D] A], [[F] B]. *)
Theorem list_top_sorted_annotated (w : World H) (mp : Path)
    (es : list (string * node)) :
  stat (files w) mp = inr (Dir es) ->
  let names := sort_names (List.map fst es) in
  list_top mp w = (w, Ok (List.map (top_line (files w) mp) names))
  /\ Permutation names (List.map fst es)
  /\ StronglySorted (fun a b => String.leb a b = true) names
  /\ (forall c n,
        assoc c es = Some n -> dot c = false -> dotdot c = false ->
        (forall t, n <> Link t) ->
        top_line (files w) mp c =
          (match n with Dir _ => "[D]" | _ => "[F]" end) +:+ " " +:+ c)
  /\ (forall sub data,
        es = [("A", Dir sub); ("B", File data)]
        \/ es = [("B", File data); ("A", Dir sub)] ->
        list_top mp w = (w, Ok ["[D] A"; "[F] B"])).
Proof.
  intros S names.
  assert (forall c n,
        assoc c es = Some n -> dot c = false -> dotdot c = false ->
        (forall t, n <> Link t) ->
        top_line (files w) mp c =
          (match n with Dir _ => "[D]" | _ => "[F]" end) +:+ " " +:+ c) as L.
  { intros c n A D DD NL. unfold top_line, is_dir.
    destruct (FSFacts.stat_child _ _ _ _ _ S D DD A NL) as [-> _].
    destruct n; reflexivity. }
  split; [apply list_top_lines; exact S|].
  split; [apply OrderFacts.sort_names_perm|].
  split; [apply OrderFacts.sort_names_sorted|].
  split; [exact L|].
  intros sub data E. rewrite (list_top_lines w mp es S).
  assert (sort_names (List.map fst es) = ["A"; "B"]) as ->
    by (destruct E as [-> | ->]; reflexivity).
  simpl List.map.
  rewrite (L "A" (Dir sub)), (L "B" (File data)); try reflexivity;
    try (intros t; discriminate); destruct E as [-> | ->]; reflexivity.
Qed.

End ListProperties.

(** ** Finding the bundle *)

Module FindFacts.

Import FS.

(** Induction on a tree: a directory may assume the property of all its
    entries. *)
Lemma node_induction (P : node -> Prop) :
  (forall data, P (File data)) ->
  (forall target, P (Link target)) ->
  (forall es, List.Forall (fun kn => P (snd kn)) es -> P (Dir es)) ->
  forall n, P n.
Proof.
  intros HF HL HD. fix IH 1. intros [data|target|es].
  - apply HF.
  - apply HL.
  - apply HD. induction es as [|[k m] es IHes]; constructor.
    + apply IH.
    + exact IHes.
Qed.

Lemma in_concat_arrange {A} (o : walk_order) (l : list (list A)) (x : A) :
  List.In x (List.concat (arrange o l)) <-> List.In x (List.concat l).
Proof.
  destruct o; simpl; [reflexivity|].
  rewrite !List.in_concat. split; intros [y [Y X]]; exists y; (split; [|exact X]).
  - apply List.in_rev. exact Y.
  - apply List.in_rev in Y. exact Y.
Qed.

Lemma extend_nil (p : Path) : extend p [] = p.
Proof. destruct p. unfold extend. simpl. rewrite app_nil_r. reflexivity. Qed.

Lemma extend_child (p : Path) (c : string) (rel : list string) :
  extend (child p c) rel = extend p (c :: rel).
Proof. unfold extend, child. simpl. rewrite <- app_assoc. reflexivity. Qed.

(** The directories [rglob] visits are those a chain of real
    directories leads to. *)
Lemma in_iterate_directories (o : walk_order) (n : node) :
  forall (p d : Path) (des : list (string * node)),
    List.In (d, des) (iterate_directories o p n) <->
    exists rel, reach n rel (Dir des) /\ d = extend p rel.
Proof.
  induction n as [data|target|es IH] using node_induction; intros p d des.
  - simpl. split; [tauto|]. intros [rel [R _]]. inversion R.
  - simpl. split; [tauto|]. intros [rel [R _]]. inversion R.
  - simpl. rewrite in_concat_arrange, List.in_concat. split.
    + intros [E|[l [L X]]].
      * inversion E; subst. exists []. split; [constructor|].
        symmetry. apply extend_nil.
      * apply List.in_map_iff in L. destruct L as [[c m] [<- M]]. simpl in X.
        rewrite List.Forall_forall in IH. specialize (IH _ M). simpl in IH.
        apply IH in X. destruct X as [rel [R ->]].
        assert (exists sub, m = Dir sub) as [sub ->].
        { inversion R; subst; eauto. }
        exists (c :: rel). split; [econstructor; eauto|]. apply extend_child.
    + intros [rel [R ->]].
      inversion R as [|es' c sub rel0 m' I R' E1 E2 E3]; subst.
      * left. rewrite extend_nil. reflexivity.
      * right. exists (iterate_directories o (child p c) (Dir sub)). split.
        -- apply List.in_map_iff. exists (c, Dir sub). split; auto.
        -- rewrite List.Forall_forall in IH. specialize (IH _ I). simpl in IH.
           apply IH. exists rel0. split; auto. symmetry. apply extend_child.
Qed.

Lemma in_select_app (d : Path) (des : list (string * node)) (q : Path) :
  List.In q (select_app (d, des)) <->
  exists c m, List.In (c, m) des /\ is_app c = true /\ q = child d c.
Proof.
  unfold select_app. simpl. rewrite List.in_map_iff. split.
  - intros [[c m] [<- F]]. apply List.filter_In in F. destruct F as [I A].
    exists c, m. auto.
  - intros [c [m [I [A ->]]]]. exists (c, m). split; [reflexivity|].
    apply List.filter_In. auto.
Qed.

Lemma in_rglob_app (o : walk_order) (fs : fsys) (mp : Path)
    (es : list (string * node)) (q : Path) :
  stat fs mp = inr (Dir es) ->
  List.In q (rglob_app o mp fs) <-> app_entry mp es q.
Proof.
  intros S. unfold rglob_app, app_entry. rewrite S, List.in_flat_map. split.
  - intros [[d des] [I Q]]. apply in_iterate_directories in I.
    destruct I as [rel [R ->]]. apply in_select_app in Q.
    destruct Q as [c [m [I [A ->]]]]. exists rel, des, c, m. auto.
  - intros [rel [des [c [m [R [I [A ->]]]]]]]. exists (extend mp rel, des). split.
    + apply in_iterate_directories. eauto.
    + apply in_select_app. eauto.
Qed.

(** Matches among the children of the mount point come before all
    others, in scan order, whatever the order of descent. *)
Lemma rglob_app_top (o : walk_order) (fs : fsys) (mp : Path)
    (pre post : list (string * node)) (c : string) (m : node) :
  stat fs mp = inr (Dir (pre ++ (c, m) :: post)) ->
  List.Forall (fun kn => is_app (fst kn) = false) pre ->
  is_app c = true ->
  List.head (rglob_app o mp fs) = Some (child mp c).
Proof.
  intros S F A. unfold rglob_app. rewrite S. simpl. unfold select_app at 1. simpl.
  rewrite List.filter_app. simpl. fold (is_app c). rewrite A.
  assert (List.filter (fun kn : string * node => Py.endswith ".app" (fst kn)) pre = [])
    as ->.
  { clear - F. induction pre as [|[k x] pre IHp]; simpl; [reflexivity|].
    inversion F as [|? ? Hx Hr]; subst. simpl in Hx. unfold is_app in Hx.
    rewrite Hx. apply IHp. exact Hr. }
  reflexivity.
Qed.

End FindFacts.

Section FindProperties.

Context {H : Type} (os : Platform H).

Import FS.

(** C4, as the code has it: for a mount point that is a directory,
    [find_app_bundle] returns the first path that the recursive scan
    yields, where the scan yields exactly the entries below the mount
    point whose name ends in [.app], whether directory, file or link;
    it returns [None] exactly when there is no such entry.  A match
    among the children of the mount point wins over any deeper one. *)
Theorem find_app_bundle_first_entry (w : World H) (mp : Path)
    (es : list (string * node)) :
  stat (files w) mp = inr (Dir es) ->
  let hits := rglob_app (glob_order os) mp (files w) in
  find_app_bundle os mp w = (w, Ok (List.head hits))
  /\ (forall q, List.In q hits <-> app_entry mp es q)
  /\ (List.head hits = None <-> forall q, ~ app_entry mp es q)
  /\ (forall pre c m post,
        es = pre ++ (c, m) :: post ->
        List.Forall (fun kn => is_app (fst kn) = false) pre ->
        is_app c = true ->
        List.head hits = Some (child mp c)).
Proof.
  intros S hits. split; [reflexivity|].
  split; [intros q; apply FindFacts.in_rglob_app; exact S|].
  split.
  - split.
    + intros N q Q.
      apply (FindFacts.in_rglob_app (glob_order os) _ _ _ _ S) in Q.
      fold hits in Q. destruct hits; [exact Q|discriminate].
    + intros N. destruct hits as [|q l] eqn:E; [reflexivity|].
      exfalso. apply (N q). apply (FindFacts.in_rglob_app (glob_order os) _ _ _ _ S).
      fold hits. rewrite E. left. reflexivity.
  - intros pre c m post -> F A. eapply FindFacts.rglob_app_top; eauto.
Qed.

End FindProperties.

(** ** The file system: changes *)

Module TreeFacts.

Import FS FSFacts.

Lemma is_prefix_spec (p q : list string) :
  is_prefix p q = true <-> exists t, q = p ++ t.
Proof.
  revert q. induction p as [|a p IH]; intros q; simpl.
  - split; eauto.
  - destruct q as [|b q].
    + split; [discriminate|]. intros [t E]. discriminate.
    + rewrite andb_true_iff, String.eqb_eq, IH. split.
      * intros [-> [t ->]]. eauto.
      * intros [t E]. inversion E; subst. eauto.
Qed.

Lemma is_prefix_refl (p : list string) : is_prefix p p = true.
Proof. apply is_prefix_spec. exists []. rewrite app_nil_r. reflexivity. Qed.

Lemma is_prefix_app (p t : list string) : is_prefix p (p ++ t) = true.
Proof. apply is_prefix_spec. eauto. Qed.

Lemma is_prefix_trans (p q s : list string) :
  is_prefix p q = true -> is_prefix q s = true -> is_prefix p s = true.
Proof.
  rewrite !is_prefix_spec. intros [t ->] [u ->]. exists (t ++ u).
  rewrite app_assoc. reflexivity.
Qed.

(** How two locations lie: one above the other, or apart. *)
Lemma locations (p q : list string) :
  is_prefix q p = true
  \/ (exists x rest, q = p ++ x :: rest)
  \/ (is_prefix p q = false /\ is_prefix q p = false).
Proof.
  destruct (is_prefix q p) eqn:QP; [left; reflexivity|right].
  destruct (is_prefix p q) eqn:PQ; [left|right; auto].
  apply is_prefix_spec in PQ. destruct PQ as [[|x rest] ->].
  - rewrite app_nil_r, is_prefix_refl in QP. discriminate.
  - eauto.
Qed.

Lemma assoc_map_entry (c x : string) (g : node -> node) (es : list (string * node)) :
  assoc x (map_entry c g es) =
    if String.eqb x c then g <$> assoc x es else assoc x es.
Proof.
  induction es as [|[k n] es IH]; simpl.
  - destruct (String.eqb x c); reflexivity.
  - destruct (String.eqb k c) eqn:KC; simpl.
    + apply String.eqb_eq in KC. subst k.
      destruct (String.eqb c x) eqn:CX.
      * apply String.eqb_eq in CX. subst x. rewrite String.eqb_refl. reflexivity.
      * rewrite IH. reflexivity.
    + destruct (String.eqb k x) eqn:KX.
      * apply String.eqb_eq in KX. subst x. rewrite KC. reflexivity.
      * exact IH.
Qed.

(** At the place of the change. *)
Lemma get_update_same (r : node) (p : list string)
    (f : list (string * node) -> list (string * node)) :
  get (update r p f) p =
    match get r p with
    | Some (Dir es) => Some (Dir (f es))
    | other => other
    end.
Proof.
  revert r. induction p as [|a p IH]; intros r; simpl.
  - destruct r; reflexivity.
  - destruct r as [d|t|es]; try reflexivity. simpl.
    rewrite assoc_map_entry, String.eqb_refl.
    destruct (assoc a es) as [m|]; simpl; [apply IH|reflexivity].
Qed.

(** Apart from the place of the change. *)
Lemma get_update_apart (r : node) (p q : list string)
    (f : list (string * node) -> list (string * node)) :
  is_prefix p q = false -> is_prefix q p = false ->
  get (update r p f) q = get r q.
Proof.
  revert r q. induction p as [|a p IH]; intros r q PQ QP; simpl in *; [discriminate|].
  destruct q as [|b q]; [discriminate|]. simpl in *.
  destruct r as [d|t|es]; try reflexivity. simpl.
  rewrite assoc_map_entry.
  destruct (String.eqb b a) eqn:BA.
  - apply String.eqb_eq in BA. subst b. rewrite String.eqb_refl in PQ. simpl in *.
    destruct (assoc a es) as [m|]; simpl; [apply IH; assumption|reflexivity].
  - reflexivity.
Qed.

(** Above the place of the change, and at it: the kinds stay. *)
Lemma get_update_above (r : node) (p q : list string)
    (f : list (string * node) -> list (string * node)) :
  is_prefix q p = true ->
  shape (get (update r p f) q) = shape (get r q).
Proof.
  revert r p. induction q as [|b q IH]; intros r p QP; simpl in *.
  - destruct p; destruct r; reflexivity.
  - destruct p as [|a p]; [discriminate|]. simpl in *.
    apply andb_true_iff in QP. destruct QP as [BA QP].
    apply String.eqb_eq in BA. subst b.
    destruct r as [d|t|es]; try reflexivity. simpl.
    rewrite assoc_map_entry, String.eqb_refl.
    destruct (assoc a es) as [m|]; simpl; [apply IH; assumption|reflexivity].
Qed.

(** Below the place of the change, under a name the change keeps. *)
Lemma get_update_below (r : node) (p rest : list string) (c x : string)
    (f : list (string * node) -> list (string * node)) :
  keeps c f -> x <> c ->
  get (update r p f) (p ++ x :: rest) = get r (p ++ x :: rest).
Proof.
  intros K N. rewrite !get_app, get_update_same.
  destruct (get r p) as [[d|t|es]|]; try reflexivity.
  simpl. rewrite K by exact N. reflexivity.
Qed.

Lemma keeps_remove (c : string) : keeps c (remove_entry c).
Proof.
  intros es x N. unfold remove_entry.
  induction es as [|[k n] es IH]; simpl; [reflexivity|].
  destruct (String.eqb k c) eqn:KC; simpl.
  - apply String.eqb_eq in KC. subst k.
    assert (String.eqb c x = false) as -> by (apply String.eqb_neq; congruence).
    exact IH.
  - destruct (String.eqb k x); [reflexivity|exact IH].
Qed.

Lemma keeps_add (c : string) (n : node) : keeps c (add_entry c n).
Proof.
  intros es x N. unfold add_entry.
  induction es as [|[k m] es IH]; simpl.
  - assert (String.eqb c x = false) as -> by (apply String.eqb_neq; congruence).
    reflexivity.
  - destruct (String.eqb k x); [reflexivity|exact IH].
Qed.

Lemma assoc_remove_same (c : string) (es : list (string * node)) :
  assoc c (remove_entry c es) = None.
Proof.
  unfold remove_entry. induction es as [|[k n] es IH]; simpl; [reflexivity|].
  destruct (String.eqb k c) eqn:KC; simpl; [exact IH|]. rewrite KC. exact IH.
Qed.

Lemma assoc_add_fresh (c : string) (n : node) (es : list (string * node)) :
  assoc c es = None -> assoc c (add_entry c n es) = Some n.
Proof.
  unfold add_entry. induction es as [|[k m] es IH]; simpl; intros A.
  - rewrite String.eqb_refl. reflexivity.
  - destruct (String.eqb k c); [discriminate|auto].
Qed.

(** A change of the entries of [p] that keeps every name but [c] cannot
    be told by a lookup clear of [p ++ [c]]. *)
Lemma agree_keeps (r : node) (p : list string) (c : string)
    (f : list (string * node) -> list (string * node)) :
  keeps c f -> agree (p ++ [c]) r (update r p f).
Proof.
  intros K q Off. symmetry.
  destruct (locations p q) as [Above|[[x [rest ->]]|[PQ QP]]].
  - apply get_update_above. exact Above.
  - f_equal. eapply get_update_below; [exact K|].
    intros ->.
    replace (p ++ c :: rest) with ((p ++ [c]) ++ rest) in Off
      by (rewrite <- app_assoc; reflexivity).
    rewrite is_prefix_app in Off. discriminate.
  - f_equal. apply get_update_apart; assumption.
Qed.

(** A change at [p] cannot be told by a lookup clear of [p]. *)
Lemma agree_at (r : node) (p : list string)
    (f : list (string * node) -> list (string * node)) :
  agree p r (update r p f).
Proof.
  intros q Off. symmetry.
  destruct (is_prefix q p) eqn:QP.
  - apply get_update_above. exact QP.
  - f_equal. apply get_update_apart; assumption.
Qed.

Lemma agree_refl (away : list string) (r : node) : agree away r r.
Proof. intros q _. reflexivity. Qed.

Lemma agree_trans (away : list string) (r1 r2 r3 : node) :
  agree away r1 r2 -> agree away r2 r3 -> agree away r1 r3.
Proof. intros A B q Off. rewrite (A q Off). apply B. exact Off. Qed.

End TreeFacts.

(** ** Lookups that stay clear of a location *)

Module AvoidFacts.

Import FS FSFacts TreeFacts.

Lemma walk_avoiding_eq (away : list string) (f : nat) (r : node)
    (cur rest : list string) :
  walk_avoiding away (S f) r cur rest =
    if is_prefix away cur then inl BusyError
    else
      match rest with
      | [] => inr cur
      | c :: rest' =>
          match get r cur with
          | Some (Dir es) =>
              if dot c then walk_avoiding away (S f) r cur rest'
              else if dotdot c then walk_avoiding away (S f) r (List.removelast cur) rest'
              else if is_prefix away (cur ++ [c]) then inl BusyError
              else
                match assoc c es with
                | None => inl FileNotFoundError
                | Some (Link t) =>
                    walk_avoiding away f r
                      (if anchored t then [] else cur) (parts t ++ rest')
                | Some _ => walk_avoiding away (S f) r (cur ++ [c]) rest'
                end
          | Some _ => inl NotADirectoryError
          | None => inl FileNotFoundError
          end
      end.
Proof. destruct rest; reflexivity. Qed.

(** Such a lookup is a lookup, and it ends clear of the location. *)
Lemma walk_avoiding_sound (away : list string) (f : nat) (r : node)
    (cur rest q : list string) :
  walk_avoiding away f r cur rest = inr q ->
  walk f r true cur rest = inr q /\ is_prefix away q = false.
Proof.
  revert cur rest. induction f as [|f IHf]; intros cur rest W; [discriminate|].
  revert cur W. induction rest as [|a rest IHr]; intros cur W;
    rewrite walk_avoiding_eq in W; rewrite walk_eq;
    destruct (is_prefix away cur) eqn:Off; try discriminate.
  - inversion W; subst. auto.
  - destruct (get r cur) as [[d|t|es]|]; try discriminate.
    destruct (dot a); [apply IHr; exact W|].
    destruct (dotdot a); [apply IHr; exact W|].
    destruct (is_prefix away (cur ++ [a])); [discriminate|].
    destruct (assoc a es) as [[d|t|es']|]; try discriminate.
    + apply IHr; exact W.
    + rewrite andb_false_r. apply IHf. exact W.
    + apply IHr; exact W.
Qed.

(** Two trees it cannot tell apart give it the same answer. *)
Lemma walk_avoiding_agree (away : list string) (r r' : node) :
  agree away r r' ->
  forall f cur rest,
    walk_avoiding away f r cur rest = walk_avoiding away f r' cur rest.
Proof.
  intros A f. induction f as [|f IHf]; intros cur rest; [reflexivity|].
  revert cur. induction rest as [|a rest IHr]; intros cur;
    rewrite (walk_avoiding_eq away f r), (walk_avoiding_eq away f r');
    destruct (is_prefix away cur) eqn:Off;
    try reflexivity.
  pose proof (A cur Off) as SC.
  destruct (get r cur) as [[d|t|es]|] eqn:G;
    destruct (get r' cur) as [[d'|t'|es']|] eqn:G'; simpl in SC;
    try discriminate; try reflexivity.
  destruct (dot a); [apply IHr|].
  destruct (dotdot a); [apply IHr|].
  destruct (is_prefix away (cur ++ [a])) eqn:Off'; [reflexivity|].
  pose proof (A _ Off') as SA. rewrite !get_snoc, G, G' in SA.
  destruct (assoc a es) as [[x|x|x]|]; destruct (assoc a es') as [[y|y|y]|];
    simpl in SA; try discriminate; try reflexivity; try apply IHr.
  inversion SA; subst. apply IHf.
Qed.

Lemma namei_avoiding_stat (away : list string) (fs : fsys) (p : Path)
    (q : list string) (n : node) :
  namei_avoiding away fs p = inr q -> get (root fs) q = Some n ->
  namei true fs p = inr q /\ stat fs p = inr n /\ is_prefix away q = false.
Proof.
  unfold namei_avoiding, namei, stat, node_at. intros W G.
  apply walk_avoiding_sound in W. destruct W as [W Off].
  unfold namei. rewrite W, G. auto.
Qed.

Lemma namei_avoiding_agree (away : list string) (fs : fsys) (r' : node) (p : Path) :
  agree away (root fs) r' ->
  namei_avoiding away (with_root fs r') p = namei_avoiding away fs p.
Proof.
  intros A. unfold namei_avoiding, with_root, start. cbn [root cwd].
  symmetry. apply walk_avoiding_agree. exact A.
Qed.

End AvoidFacts.

(** ** Copying the bundle *)

Module CopyFacts.

Import FS FSFacts TreeFacts AvoidFacts.

Lemma path_eta (p : Path) : mkPath (anchored p) (parts p) = p.
Proof. destruct p; reflexivity. Qed.

Lemma stat_lstat (fs : fsys) (p : Path) (n : node) :
  stat fs p = inr n -> exists m, lstat fs p = inr m.
Proof.
  unfold stat, lstat, node_at, namei. intros S.
  destruct (walk _ _ true _ _) as [e|q] eqn:W; [discriminate|].
  destruct (get (root fs) q) as [m|] eqn:G; [|discriminate].
  destruct (walk_nofollow _ _ _ _ _ _ W G) as [q' [n' [W' G']]].
  rewrite W', G'. eauto.
Qed.

Lemma os_mkdir_existing (fs : fsys) (p : Path) :
  is_dir fs p = true -> os_mkdir fs p = inl FileExistsError.
Proof.
  unfold is_dir. intros D. destruct (stat fs p) as [e|n] eqn:S; [discriminate|].
  destruct (stat_lstat _ _ _ S) as [m L]. unfold os_mkdir. rewrite L. reflexivity.
Qed.

Lemma mkdir_parents_existing (fs : fsys) (a : bool) (rp : list string) :
  is_dir fs (mkPath a (List.rev rp)) = true -> mkdir_parents a rp fs = (fs, Ok tt).
Proof.
  intros D. pose proof (os_mkdir_existing _ _ D) as M.
  destruct rp as [|c rp]; simpl in *; rewrite M, D; reflexivity.
Qed.

(** [mkdir(parents=True, exist_ok=True)] on a directory that is there
    changes nothing. *)
Lemma Path_mkdir_existing (fs : fsys) (p : Path) :
  is_dir fs p = true -> Path_mkdir p fs = (fs, Ok tt).
Proof.
  intros D. unfold Path_mkdir. apply mkdir_parents_existing.
  rewrite List.rev_involutive, path_eta. exact D.
Qed.

Lemma div_plain (d : Path) (c : string) : plain c -> div d c = child d c.
Proof. intros [E _]. unfold div, join. rewrite E. reflexivity. Qed.

Lemma is_prefix_shorter (s d : list string) (c : string) :
  is_prefix s (d ++ [c]) = false -> is_prefix s d = false.
Proof.
  intros N. destruct (is_prefix s d) eqn:P; [|reflexivity].
  rewrite (is_prefix_trans s d (d ++ [c]) P (is_prefix_app d [c])) in N. discriminate.
Qed.

Lemma copytree_installs (fs : fsys) (src dest_dir : Path) (c : string)
    (d s : list string) (des ses : list (string * node)) :
  dot c = false -> dotdot c = false ->
  namei_avoiding (d ++ [c]) fs dest_dir = inr d ->
  get (root fs) d = Some (Dir des) ->
  assoc c des = None ->
  namei_avoiding (d ++ [c]) fs src = inr s ->
  get (root fs) s = Some (Dir ses) ->
  is_prefix s (d ++ [c]) = false ->
  copytree src (child dest_dir c) fs =
    (with_root fs (installed (root fs) d c ses), Ok (child dest_dir c)).
Proof.
  intros D DD ND GD A NS GS PS.
  destruct (namei_avoiding_stat _ _ _ _ _ ND GD) as (WD & SD & _).
  destruct (namei_avoiding_stat _ _ _ _ _ NS GS) as (WS & _ & _).
  unfold copytree. rewrite WS, GS.
  (* os.makedirs(dst): the parent is there, so one os.mkdir *)
  assert (lstat fs (child dest_dir c) = inl FileNotFoundError) as LN.
  { unfold lstat, node_at, namei, child, start. cbn [anchored parts].
    pose proof (walk_snoc _ _ false _ _ _ c des WD GD D DD) as F.
    rewrite A in F. unfold namei, start in F. rewrite F. reflexivity. }
  set (fs2 := with_root fs (update (root fs) d (add_entry c (Dir [])))).
  assert (os_mkdir fs (child dest_dir c) = inr fs2) as MK.
  { unfold os_mkdir. rewrite LN. unfold child at 1. cbn [parts].
    destruct (parts dest_dir ++ [c]) as [|x l] eqn:E.
    { destruct (parts dest_dir); discriminate. }
    unfold parent, child. cbn [anchored parts].
    rewrite List.removelast_last, List.last_last, path_eta, WD, GD, D, DD.
    reflexivity. }
  assert (makedirs (anchored (child dest_dir c)) (List.rev (parts (child dest_dir c))) fs
          = (fs2, Ok tt)) as MD.
  { unfold child. cbn [anchored parts]. rewrite List.rev_app_distr. simpl.
    rewrite List.rev_involutive, path_eta.
    unfold exists_. rewrite SD. rewrite andb_false_r.
    fold (child dest_dir c). rewrite MK. reflexivity. }
  rewrite MD.
  (* the new directory is where the copy goes *)
  assert (namei true fs2 (child dest_dir c) = inr (d ++ [c])) as W2.
  { assert (namei_avoiding (d ++ [c]) fs2 dest_dir = inr d) as N2.
    { unfold fs2. rewrite namei_avoiding_agree; [exact ND|].
      apply agree_keeps. apply keeps_add. }
    assert (get (root fs2) d = Some (Dir (add_entry c (Dir []) des))) as G2.
    { unfold fs2. simpl. rewrite get_update_same, GD. reflexivity. }
    destruct (namei_avoiding_stat _ _ _ _ _ N2 G2) as (W & _ & _).
    pose proof (walk_snoc _ _ true _ _ _ c _ W G2 D DD) as T.
    rewrite (assoc_add_fresh c (Dir []) des A) in T.
    unfold namei, child, start in *. cbn [anchored parts]. exact T. }
  rewrite W2, List.removelast_last, (is_prefix_shorter _ _ _ PS). simpl.
  reflexivity.
Qed.

Lemma get_update_keeps_apart (r : node) (d q : list string) (c : string)
    (f : list (string * node) -> list (string * node)) :
  keeps c f ->
  is_prefix (d ++ [c]) q = false -> is_prefix q (d ++ [c]) = false ->
  get (update r d f) q = get r q.
Proof.
  intros K Off NotAbove.
  destruct (locations d q) as [Above|[[x [rest ->]]|[PQ QP]]].
  - rewrite (is_prefix_trans q d (d ++ [c]) Above (is_prefix_app d [c])) in NotAbove.
    discriminate.
  - eapply get_update_below; [exact K|].
    intros ->.
    replace (d ++ c :: rest) with ((d ++ [c]) ++ rest) in Off
      by (rewrite <- app_assoc; reflexivity).
    rewrite is_prefix_app in Off. discriminate.
  - apply get_update_apart; assumption.
Qed.

Lemma get_installed (r : node) (d : list string) (c : string)
    (des ses : list (string * node)) :
  get r d = Some (Dir des) -> assoc c des = None ->
  get (installed r d c ses) (d ++ [c]) = Some (Dir ses).
Proof.
  intros G A. unfold installed.
  rewrite get_update_same, get_snoc, get_update_same, G.
  rewrite (assoc_add_fresh c (Dir []) des A). reflexivity.
Qed.

Lemma get_installed_apart (r : node) (d q : list string) (c : string)
    (ses : list (string * node)) :
  is_prefix (d ++ [c]) q = false -> is_prefix q (d ++ [c]) = false ->
  get (installed r d c ses) q = get r q.
Proof.
  intros Off NotAbove. unfold installed.
  rewrite (get_update_apart _ _ _ _ Off NotAbove).
  exact (get_update_keeps_apart _ _ _ c _ (keeps_add c (Dir [])) Off NotAbove).
Qed.

Lemma lstat_entry (fs : fsys) (dest_dir : Path) (c : string)
    (d : list string) (des : list (string * node)) (old : node) :
  dot c = false -> dotdot c = false ->
  namei true fs dest_dir = inr d ->
  get (root fs) d = Some (Dir des) ->
  assoc c des = Some old ->
  namei false fs (child dest_dir c) = inr (d ++ [c])
  /\ get (root fs) (d ++ [c]) = Some old.
Proof.
  intros D DD W G A. split.
  - pose proof (walk_snoc _ _ false _ _ _ c des W G D DD) as F. rewrite A in F.
    unfold namei, child, start in *. cbn [anchored parts].
    destruct old; auto.
  - rewrite get_snoc, G. exact A.
Qed.

Lemma remove_at_entry (fs : fsys) (d : list string) (c : string) :
  match d ++ [c] with
  | [] => fs
  | _ :: _ =>
      with_root fs (update (root fs) (List.removelast (d ++ [c]))
                      (remove_entry (List.last (d ++ [c]) "")))
  end = with_root fs (update (root fs) d (remove_entry c)).
Proof.
  destruct (d ++ [c]) as [|x l] eqn:E; [destruct d; discriminate|].
  rewrite <- E, List.removelast_last, List.last_last. reflexivity.
Qed.

Lemma rmtree_entry (fs : fsys) (dest_dir : Path) (c : string)
    (d : list string) (des oes : list (string * node)) :
  dot c = false -> dotdot c = false ->
  namei true fs dest_dir = inr d ->
  get (root fs) d = Some (Dir des) ->
  assoc c des = Some (Dir oes) ->
  rmtree (child dest_dir c) fs =
    (with_root fs (update (root fs) d (remove_entry c)), Ok tt).
Proof.
  intros D DD W G A.
  destruct (lstat_entry _ _ _ _ _ _ D DD W G A) as [N GO].
  unfold rmtree. rewrite N, GO.
  pose proof (remove_at_entry fs d c) as R.
  destruct (d ++ [c]) as [|x l] eqn:E.
  { destruct d; discriminate. }
  rewrite R. reflexivity.
Qed.

Lemma unlink_entry (fs : fsys) (dest_dir : Path) (c : string)
    (d : list string) (des : list (string * node)) (old : node) :
  dot c = false -> dotdot c = false ->
  namei true fs dest_dir = inr d ->
  get (root fs) d = Some (Dir des) ->
  assoc c des = Some old ->
  (forall oes, old <> Dir oes) ->
  unlink (child dest_dir c) fs =
    (with_root fs (update (root fs) d (remove_entry c)), Ok tt).
Proof.
  intros D DD W G A ND.
  destruct (lstat_entry _ _ _ _ _ _ D DD W G A) as [N GO].
  unfold unlink. rewrite N, GO.
  pose proof (remove_at_entry fs d c) as R.
  destruct (d ++ [c]) as [|x l] eqn:E.
  { destruct d; discriminate. }
  rewrite R. destruct old as [data|t|oes]; try reflexivity.
  exfalso. eapply ND. reflexivity.
Qed.

End CopyFacts.

Section CopyProperties.

Context {H : Type}.

Import FS FSFacts TreeFacts AvoidFacts CopyFacts.

(** What [copy_app] does, dry run aside, once the destination directory
    is known to be there. *)
Lemma copy_app_steps (w : World H) (app_src dest_dir : Path) :
  is_dir (files w) dest_dir = true ->
  copy_app app_src dest_dir false w =
    let dest := div dest_dir (name app_src) in
    let fs := files w in
    let '(fs1, r1) :=
      if exists_ fs dest
      then if is_dir fs dest then rmtree dest fs else unlink dest fs
      else (fs, Ok tt) in
    match r1 with
    | Raise e => (mkWorld fs1 (hidden w) (printed w) (log w), Raise e)
    | Ok _ =>
        let '(fs2, r2) := copytree app_src dest fs1 in
        (mkWorld fs2 (hidden w) (printed w) (log w),
         match r2 with Ok _ => Ok dest | Raise e => Raise e end)
    end.
Proof.
  intros D. destruct w as [fs h pr lg]. cbn [files hidden printed log] in *.
  unfold copy_app, bind, on_files, read_files, ret.
  cbn [files hidden printed log].
  rewrite (Path_mkdir_existing _ _ D). cbn [files hidden printed log].
  destruct (exists_ fs (div dest_dir (name app_src)));
    cbn [files hidden printed log];
    [destruct (is_dir fs (div dest_dir (name app_src)))|];
    cbn [files hidden printed log].
  - destruct (rmtree _ fs) as [fs1 [[]|e]]; cbn [files hidden printed log];
      [|reflexivity].
    destruct (copytree _ _ fs1) as [fs2 [p|e]]; reflexivity.
  - destruct (unlink _ fs) as [fs1 [[]|e]]; cbn [files hidden printed log];
      [|reflexivity].
    destruct (copytree _ _ fs1) as [fs2 [p|e]]; reflexivity.
  - destruct (copytree _ _ fs) as [fs2 [p|e]]; reflexivity.
Qed.

Lemma copy_app_replaces (w : World H) (app_src dest_dir : Path)
    (d s : list string) (des ses : list (string * node)) (old : node) :
  let c := name app_src in
  let dest := div dest_dir c in
  let away := d ++ [c] in
  plain c ->
  namei_avoiding away (files w) dest_dir = inr d ->
  get (root (files w)) d = Some (Dir des) ->
  assoc c des = Some old ->
  (exists oes, old = Dir oes)
  \/ (exists_ (files w) dest = true /\ is_dir (files w) dest = false) ->
  namei_avoiding away (files w) app_src = inr s ->
  get (root (files w)) s = Some (Dir ses) ->
  is_prefix s away = false ->
  exists r',
    copy_app app_src dest_dir false w =
      (mkWorld (with_root (files w) r') (hidden w) (printed w) (log w), Ok dest)
    /\ get r' away = Some (Dir ses)
    /\ (forall rel t, get (Dir ses) rel = Some (Link t) ->
          get r' (away ++ rel) = Some (Link t))
    /\ (forall q, is_prefix away q = false -> is_prefix q away = false ->
          get r' q = get (root (files w)) q).
Proof.
  intros c dest away [PC [D DD]] ND GD A OLD NS GS PS.
  set (fs := files w) in *.
  destruct (namei_avoiding_stat _ _ _ _ _ ND GD) as (WD & SD & _).
  destruct (namei_avoiding_stat _ _ _ _ _ NS GS) as (_ & _ & OffS).
  assert (dest = child dest_dir c) as ED by (apply div_plain; split; auto).
  set (r1 := update (root fs) d (remove_entry c)).
  set (fs1 := with_root fs r1).
  (* the old entry goes *)
  assert ((if exists_ fs dest
           then if is_dir fs dest then rmtree dest fs else unlink dest fs
           else (fs, Ok tt)) = (fs1, Ok tt)) as REM.
  { destruct OLD as [[oes ->]|[EX NDir]].
    - assert (forall t, Dir oes <> Link t) as NL by (intros t; discriminate).
      assert (stat fs dest = inr (Dir oes)) as SO.
      { rewrite ED. exact (proj1 (stat_child fs dest_dir c des (Dir oes) SD D DD A NL)). }
      unfold exists_, is_dir. rewrite SO. rewrite ED.
      exact (rmtree_entry fs dest_dir c d des oes D DD WD GD A).
    - rewrite EX, NDir, ED.
      apply (unlink_entry fs dest_dir c d des old D DD WD GD A).
      intros oes ->.
      assert (forall t, Dir oes <> Link t) as NL by (intros t; discriminate).
      assert (stat fs dest = inr (Dir oes)) as SO.
      { rewrite ED. exact (proj1 (stat_child fs dest_dir c des (Dir oes) SD D DD A NL)). }
      unfold is_dir in NDir. rewrite SO in NDir. discriminate. }
  (* the copy lands in the free place *)
  assert (agree away (root fs) r1) as AG by (apply agree_keeps, keeps_remove).
  assert (copytree app_src dest fs1 =
          (with_root fs1 (installed r1 d c ses), Ok dest)) as CP.
  { rewrite ED. apply (copytree_installs fs1 app_src dest_dir c d s
                         (remove_entry c des) ses);
      [exact D|exact DD| | | | | |exact PS].
    - unfold fs1. rewrite (namei_avoiding_agree _ _ _ _ AG). exact ND.
    - unfold fs1, r1. cbn [root with_root].
      rewrite get_update_same, GD. reflexivity.
    - apply assoc_remove_same.
    - unfold fs1. rewrite (namei_avoiding_agree _ _ _ _ AG). exact NS.
    - unfold fs1, r1. cbn [root with_root].
      rewrite (get_update_keeps_apart _ _ _ c
                 (remove_entry c) (keeps_remove c) OffS PS).
      exact GS. }
  exists (installed r1 d c ses). split; [|split; [|split]].
  - rewrite copy_app_steps by (unfold is_dir; fold fs; rewrite SD; reflexivity).
    cbv zeta. fold fs c dest. rewrite REM, CP. reflexivity.
  - apply (get_installed r1 d c (remove_entry c des)).
    + unfold r1. rewrite get_update_same, GD. reflexivity.
    + apply assoc_remove_same.
  - intros rel t GL.
    rewrite get_app, (get_installed r1 d c (remove_entry c des)).
    + exact GL.
    + unfold r1. rewrite get_update_same, GD. reflexivity.
    + apply assoc_remove_same.
  - intros q Off NotAbove. rewrite (get_installed_apart _ _ _ _ _ Off NotAbove).
    unfold r1.
    exact (get_update_keeps_apart _ _ _ c (remove_entry c) (keeps_remove c)
             Off NotAbove).
Qed.

(** The same with nothing under the bundle's name at the destination. *)
Lemma copy_app_fresh (w : World H) (app_src dest_dir : Path)
    (d s : list string) (des ses : list (string * node)) :
  let c := name app_src in
  let dest := div dest_dir c in
  let away := d ++ [c] in
  plain c ->
  namei_avoiding away (files w) dest_dir = inr d ->
  get (root (files w)) d = Some (Dir des) ->
  assoc c des = None ->
  namei_avoiding away (files w) app_src = inr s ->
  get (root (files w)) s = Some (Dir ses) ->
  is_prefix s away = false ->
  copy_app app_src dest_dir false w =
    (mkWorld (with_root (files w) (installed (root (files w)) d c ses))
       (hidden w) (printed w) (log w), Ok dest).
Proof.
  intros c dest away [PC [D DD]] ND GD A NS GS PS.
  set (fs := files w) in *.
  destruct (namei_avoiding_stat _ _ _ _ _ ND GD) as (WD & SD & _).
  assert (dest = child dest_dir c) as ED by (apply div_plain; split; auto).
  assert (exists_ fs dest = false) as NE.
  { rewrite ED. unfold exists_, stat, node_at, namei, child, start.
    cbn [anchored parts].
    pose proof (walk_snoc _ _ true _ _ _ c des WD GD D DD) as T.
    rewrite A in T. unfold namei, start in T. rewrite T. reflexivity. }
  rewrite copy_app_steps by (unfold is_dir; fold fs; rewrite SD; reflexivity).
  cbv zeta. fold fs c dest. rewrite NE.
  rewrite ED.
  rewrite (copytree_installs fs app_src dest_dir c d s des ses D DD ND GD A NS GS PS).
  reflexivity.
Qed.

(** A dry run: the directory is made, one line is printed. *)
Lemma copy_app_dry_run (w : World H) (app_src dest_dir : Path) :
  copy_app app_src dest_dir true w =
    let dest := div dest_dir (name app_src) in
    match Path_mkdir dest_dir (files w) with
    | (fs', Ok _) =>
        (mkWorld fs' (hidden w)
           (printed w ++ ["[DRY-RUN] Скопировал бы: " +:+ to_str app_src
                          +:+ " -> " +:+ to_str dest])
           (log w), Ok dest)
    | (fs', Raise e) => (mkWorld fs' (hidden w) (printed w) (log w), Raise e)
    end.
Proof.
  unfold copy_app, bind, on_files, print, ret.
  destruct (Path_mkdir dest_dir (files w)) as [fs' [[]|e]]; reflexivity.
Qed.

Lemma copy_app_value (w w' : World H) (app_src dest_dir : Path) (dry_run : bool)
    (p : Path) :
  copy_app app_src dest_dir dry_run w = (w', Ok p) ->
  p = div dest_dir (name app_src).
Proof.
  destruct dry_run.
  - rewrite copy_app_dry_run. cbv zeta.
    destruct (Path_mkdir dest_dir (files w)) as [fs' [[]|e]]; intros E;
      inversion E; reflexivity.
  - unfold copy_app, bind, on_files, read_files, ret.
    destruct (Path_mkdir dest_dir (files w)) as [fs0 [[]|e]]; [|discriminate].
    cbn [files hidden printed log].
    destruct (exists_ fs0 _); cbn [files hidden printed log];
      [destruct (is_dir fs0 _); cbn [files hidden printed log]|].
    + destruct (rmtree _ fs0) as [fs1 [[]|e]]; cbn [files hidden printed log];
        [|discriminate].
      destruct (copytree _ _ fs1) as [fs2 [q|e]]; intros E; inversion E; reflexivity.
    + destruct (unlink _ fs0) as [fs1 [[]|e]]; cbn [files hidden printed log];
        [|discriminate].
      destruct (copytree _ _ fs1) as [fs2 [q|e]]; intros E; inversion E; reflexivity.
    + destruct (copytree _ _ fs0) as [fs2 [q|e]]; intros E; inversion E; reflexivity.
Qed.

(** X15: replacing an installation.  The destination directory is at [d] and
    holds an entry [old] under the bundle's name; [old] is a real
    directory, or the destination exists and is not a directory (a
    file, or a link to one).  The source is a directory with entries
    [ses], and neither lies inside the other.  Then [copy_app] returns
    the destination, the tree there is exactly the source tree, so
    nothing of [old] is left and every link of the source is a link with
    the same text in the copy, and nothing apart from the destination
    has changed. *)
Theorem copy_app_replaces_destination (w : World H) (app_src dest_dir : Path)
    (d s : list string) (des ses : list (string * node)) (old : node) :
  let c := name app_src in
  let dest := div dest_dir c in
  let away := d ++ [c] in
  plain c ->
  namei_avoiding away (files w) dest_dir = inr d ->
  get (root (files w)) d = Some (Dir des) ->
  assoc c des = Some old ->
  (exists oes, old = Dir oes)
  \/ (exists_ (files w) dest = true /\ is_dir (files w) dest = false) ->
  namei_avoiding away (files w) app_src = inr s ->
  get (root (files w)) s = Some (Dir ses) ->
  is_prefix s away = false ->
  exists r',
    copy_app app_src dest_dir false w =
      (mkWorld (with_root (files w) r') (hidden w) (printed w) (log w), Ok dest)
    /\ get r' away = Some (Dir ses)
    /\ (forall rel t, get (Dir ses) rel = Some (Link t) ->
          get r' (away ++ rel) = Some (Link t))
    /\ (forall q, is_prefix away q = false -> is_prefix q away = false ->
          get r' q = get (root (files w)) q).
Proof.
  intros c dest away. apply copy_app_replaces.
Qed.

(** C10: whatever [copy_app] returns, in a dry run or a real one and
    from whatever state of the disk, is the destination directory joined
    with the name of the source.  And it does return: in a dry run as
    soon as the destination directory is there or can be made; in a real
    run into an existing destination directory both when the name is
    free there and when an entry that can be replaced carries it. *)
Theorem copy_app_returns_destination (app_src dest_dir : Path) :
  let dest := div dest_dir (name app_src) in
  (forall (dry_run : bool) (w w' : World H) (p : Path),
     copy_app app_src dest_dir dry_run w = (w', Ok p) -> p = dest)
  /\ (forall (w : World H) fs',
        Path_mkdir dest_dir (files w) = (fs', Ok tt) ->
        snd (copy_app app_src dest_dir true w) = Ok dest)
  /\ (forall (w : World H) d s des ses,
        plain (name app_src) ->
        namei_avoiding (d ++ [name app_src]) (files w) dest_dir = inr d ->
        get (root (files w)) d = Some (Dir des) ->
        namei_avoiding (d ++ [name app_src]) (files w) app_src = inr s ->
        get (root (files w)) s = Some (Dir ses) ->
        is_prefix s (d ++ [name app_src]) = false ->
        match assoc (name app_src) des with
        | None => True
        | Some (Dir _) => True
        | Some _ => exists_ (files w) dest = true /\ is_dir (files w) dest = false
        end ->
        snd (copy_app app_src dest_dir false w) = Ok dest).
Proof.
  intros dest. split; [|split].
  - intros dry_run w w' p E. eapply copy_app_value; eauto.
  - intros w fs' M. rewrite copy_app_dry_run. cbv zeta. rewrite M. reflexivity.
  - intros w d s des ses PC ND GD NS GS PS OLD.
    destruct (assoc (name app_src) des) as [old|] eqn:A.
    + assert ((exists oes, old = Dir oes)
              \/ (exists_ (files w) dest = true /\ is_dir (files w) dest = false))
        as R.
      { destruct old as [data|t|oes]; [right; exact OLD|right; exact OLD|].
        left. exists oes. reflexivity. }
      destruct (copy_app_replaces w app_src dest_dir d s des ses old
                  PC ND GD A R NS GS PS) as [r' [E _]].
      rewrite E. reflexivity.
    + rewrite (copy_app_fresh w app_src dest_dir d s des ses PC ND GD A NS GS PS).
      reflexivity.
Qed.

End CopyProperties.

(** * Further properties *)

(** ** Sessions: cleanup, and who has the last word *)

Section MoreSessionProperties.

Context {H : Type} (os : Platform H).

Lemma session_ends_with_cleanup (dmg : string) (block : Path -> M H unit) :
  ends_with_cleanup os dmg block (session os dmg block).
Proof.
  intros w. unfold session, with_tempdir, after_mkdtemp, try_finally, bind.
  cbv beta.
  destruct (mkdtemp os "pokerok_mnt_" (hidden w) (files w)) as [[h0 fs0] [tmp|e]];
    [|reflexivity].
  destruct (hdiutil_attach os (of_str dmg) (Some (of_str tmp))
              (mkWorld fs0 h0 (printed w) (log w))) as [w1 [[mp dev]|e]].
  - destruct (block mp w1) as [w2 r2].
    destruct (hdiutil_detach os dev w2) as [w3 [[]|e3]];
      destruct (cleanup os tmp (hidden w3) (files w3)) as [[h4 fs4] [[]|e4]];
      reflexivity.
  - destruct (cleanup os tmp (hidden w1) (files w1)) as [[h4 fs4] [[]|e4]];
      reflexivity.
Qed.

(** X1: in [list], [copy] and [verify] the temporary directory is
    removed on every path once it has been made: right after an attach
    that raised, otherwise after the detach.  The subcommand ends in
    the state the removal leaves, and with the error of the removal if
    it raised, else with the error of the detach if it raised, else
    with what the guarded block returned or raised: a later error
    replaces an earlier one. *)
Theorem subcommands_end_with_cleanup :
  (forall a : list_args,
     ends_with_cleanup os (list_dmg a) list_block (cmd_list os a))
  /\ (forall a : copy_args,
        match expanduser os (of_str (copy_dest a)) with
        | Ok dest =>
            ends_with_cleanup os (copy_dmg a)
              (copy_block os dest (copy_dry_run a)) (cmd_copy os a)
        | Raise e => forall w, cmd_copy os a w = (w, Raise e)
        end)
  /\ (forall a : verify_args,
        ends_with_cleanup os (verify_dmg a) (verify_block os) (cmd_verify os a)).
Proof.
  split; [|split].
  - intros a. rewrite cmd_list_session. apply session_ends_with_cleanup.
  - intros a. rewrite cmd_copy_session.
    destruct (expanduser os (of_str (copy_dest a))) as [dest|e] eqn:E.
    + pose proof (session_ends_with_cleanup (copy_dmg a)
                    (copy_block os dest (copy_dry_run a))) as S.
      intros w. specialize (S w). unfold bind at 1, lift. exact S.
    + intros w. reflexivity.
  - intros a. rewrite cmd_verify_session. apply session_ends_with_cleanup.
Qed.

(** A session whose every step is named. *)
Lemma session_attached (dmg : string) (block : Path -> M H unit) (w : World H)
    h0 fs0 tmp w1 mp dev w2 r2 w3 r3 h4 fs4 r4 :
  mkdtemp os "pokerok_mnt_" (hidden w) (files w) = (h0, fs0, Ok tmp) ->
  hdiutil_attach os (of_str dmg) (Some (of_str tmp)) (after_mkdtemp w h0 fs0) =
    (w1, Ok (mp, dev)) ->
  block mp w1 = (w2, r2) ->
  hdiutil_detach os dev w2 = (w3, r3) ->
  cleanup os tmp (hidden w3) (files w3) = (h4, fs4, r4) ->
  session os dmg block w = (mkWorld fs4 h4 (printed w3) (log w3), last_word r4 r3 r2).
Proof.
  intros T A B D C. pose proof (session_ends_with_cleanup dmg block w) as S.
  rewrite T, A, B, D, C in S. exact S.
Qed.

Lemma print_all_prints (lines : list string) (w : World H) :
  print_all lines w =
    (mkWorld (files w) (hidden w) (printed w ++ lines) (log w), Ok tt).
Proof.
  revert w. induction lines as [|l lines IH]; intros w; simpl.
  - unfold ret. rewrite app_nil_r. destruct w; reflexivity.
  - unfold bind, print at 1. rewrite IH. simpl. rewrite <- app_assoc. reflexivity.
Qed.

(** A detach whose first attempt succeeds. *)
Lemma hdiutil_detach_clean (dev : string) (w : World H) h1 fs1 out err :
  exec os (detach_cmd dev) (hidden w) (files w) = (h1, fs1, Exited 0 out err) ->
  hdiutil_detach os dev w =
    (mkWorld fs1 h1 (printed w) (log w ++ [detach_cmd dev]), Ok tt).
Proof.
  intros E. unfold hdiutil_detach, try_except_called, bind, run, ret.
  fold (detach_cmd dev). rewrite E. reflexivity.
Qed.

End MoreSessionProperties.

(** ** Subcommands seen from [main] *)

Section MainProperties.

Context {H : Type} (os : Platform H).

Lemma hdiutil_detach_printed (dev : string) (w : World H) :
  printed (fst (hdiutil_detach os dev w)) = printed w.
Proof.
  pose proof (hdiutil_detach_outcome os w dev) as P.
  destruct (exec os (detach_cmd dev) (hidden w) (files w)) as [[h1 fs1] o1].
  destruct (exec os (force_cmd dev) h1 fs1) as [[h2 fs2] o2].
  destruct (hdiutil_detach os dev w) as [w' r]. simpl.
  destruct (exited_nonzero o1); destruct P as (_ & _ & _ & P & _); exact P.
Qed.

Lemma list_block_prints (mp : Path) (w : World H) (es : list (string * FS.node)) :
  FS.stat (files w) mp = inr (FS.Dir es) ->
  list_block mp w =
    (mkWorld (files w) (hidden w)
       (printed w ++
        ("Содержимое " +:+ to_str mp +:+ ":")
        :: List.map (fun c => "  " +:+ " " +:+ top_line (files w) mp c)
             (sort_names (List.map fst es)))
       (log w), Ok tt).
Proof.
  intros S. unfold list_block, bind at 1, print at 1. unfold bind at 1.
  rewrite (list_top_lines _ mp es) by exact S.
  rewrite print_all_prints. cbn [files hidden printed log].
  rewrite List.map_map, <- app_assoc. reflexivity.
Qed.

(** X2: a run of [list] that attaches the image prints the header with
    the mount point and then one line per child of the mount point, in
    the order of the names, each with three blanks before its [[D]] or
    [[F]] mark; the detach and the removal of the temporary directory
    print nothing. *)
Theorem cmd_list_prints_sorted_children (a : list_args) (w : World H)
    h0 fs0 tmp w1 mp dev (es : list (string * FS.node)) :
  mkdtemp os "pokerok_mnt_" (hidden w) (files w) = (h0, fs0, Ok tmp) ->
  hdiutil_attach os (of_str (list_dmg a)) (Some (of_str tmp)) (after_mkdtemp w h0 fs0) =
    (w1, Ok (mp, dev)) ->
  FS.stat (files w1) mp = inr (FS.Dir es) ->
  printed (fst (cmd_list os a w)) =
    printed w ++
    ("Содержимое " +:+ to_str mp +:+ ":")
    :: List.map (fun c => "   " +:+ top_line (files w1) mp c)
         (sort_names (List.map fst es)).
Proof.
  intros T A S.
  pose proof (hdiutil_attach_log os (list_dmg a) tmp (after_mkdtemp w h0 fs0)) as [PA _].
  rewrite A in PA. simpl in PA.
  pose proof (list_block_prints mp w1 es S) as B.
  set (w2 := mkWorld (files w1) (hidden w1) _ (log w1)) in B.
  pose proof (hdiutil_detach_printed dev w2) as PD.
  destruct (hdiutil_detach os dev w2) as [w3 r3] eqn:D.
  destruct (cleanup os tmp (hidden w3) (files w3)) as [[h4 fs4] r4] eqn:C.
  rewrite cmd_list_session.
  rewrite (session_attached os _ _ w _ _ _ _ _ _ _ _ _ _ _ _ _ T A B D C).
  simpl in *. rewrite PD. unfold w2. simpl. rewrite PA. reflexivity.
Qed.

Lemma main_at_top (describe : exn -> string) (c : M H unit) (t : Top H)
    (w' : World H) (r : result unit) :
  c (world t) = (w', r) ->
  main describe "darwin" (at_top c) t =
    (mkTop w' (errors t ++ error_lines describe r), exit_code r).
Proof.
  intros E. unfold main, at_top. simpl. rewrite E.
  destruct r as [[]|e]; simpl.
  - rewrite app_nil_r. reflexivity.
  - destruct e; try reflexivity.
    unfold failure_report, eprint. simpl.
    destruct (Py.truthy stdout0); destruct (Py.truthy stderr0); simpl;
      repeat rewrite <- app_assoc; reflexivity.
Qed.


Lemma no_bundle_found (mp : Path) (w : World H) (es : list (string * FS.node)) :
  FS.stat (files w) mp = inr (FS.Dir es) ->
  (forall q, ~ app_entry mp es q) ->
  find_app_bundle os mp w = (w, Ok None).
Proof.
  intros S N. unfold find_app_bundle, read_files.
  destruct (FS.rglob_app (glob_order os) mp (files w)) as [|q l] eqn:E; [reflexivity|].
  exfalso. apply (N q).
  apply (FindFacts.in_rglob_app (glob_order os) _ _ _ _ S). rewrite E. left. reflexivity.
Qed.

(** X4: an image without a bundle.  When no entry below the mount point
    has a name ending in [.app], [copy] and [verify] run no tool, copy
    nothing and print nothing: the detach runs in the state the attach
    left, and apart from it nothing is run.  When the detach and the
    removal of the temporary directory return, [main] ends with the
    code 1 and the one line that no bundle was found on standard error;
    when one of them raises, its error takes the place of that one, and
    [main] ends with the lines and the code of the error that came
    last. *)
Theorem missing_bundle_exit_status (describe : exn -> string) (t : Top H)
    h0 fs0 tmp w1 mp dev (es : list (string * FS.node)) w3 r3 h4 fs4 r4 :
  let w := world t in
  let r := last_word r4 r3 (Raise no_app) in
  let ended :=
    (mkTop (mkWorld fs4 h4 (printed w1) (log w3))
       (errors t ++ error_lines describe r), exit_code r) in
  mkdtemp os "pokerok_mnt_" (hidden w) (files w) = (h0, fs0, Ok tmp) ->
  FS.stat (files w1) mp = inr (FS.Dir es) ->
  (forall q, ~ app_entry mp es q) ->
  hdiutil_detach os dev w1 = (w3, r3) ->
  cleanup os tmp (hidden w3) (files w3) = (h4, fs4, r4) ->
  (forall a : copy_args,
     hdiutil_attach os (of_str (copy_dmg a)) (Some (of_str tmp))
       (after_mkdtemp w h0 fs0) = (w1, Ok (mp, dev)) ->
     (exists dest, expanduser os (of_str (copy_dest a)) = Ok dest) ->
     main describe "darwin" (at_top (cmd_copy os a)) t = ended)
  /\ (forall a : verify_args,
        hdiutil_attach os (of_str (verify_dmg a)) (Some (of_str tmp))
          (after_mkdtemp w h0 fs0) = (w1, Ok (mp, dev)) ->
        main describe "darwin" (at_top (cmd_verify os a)) t = ended)
  /\ (log w3 = log w1 ++ [detach_cmd dev]
      \/ log w3 = log w1 ++ [detach_cmd dev; force_cmd dev])
  /\ (r3 = Ok tt -> r4 = Ok tt ->
      ended =
        (mkTop (mkWorld fs4 h4 (printed w1) (log w3))
           (errors t ++ ["Ошибка: В образе не найден .app пакет."]), 1%Z)).
Proof.
  intros w r ended T S N D C.
  pose proof (no_bundle_found mp w1 es S N) as F.
  pose proof (hdiutil_detach_printed dev w1) as P. rewrite D in P. simpl in P.
  split; [|split; [|split]].
  - intros a A [dest X]. unfold ended. rewrite <- P.
    apply main_at_top. fold w.
    rewrite cmd_copy_session. unfold bind at 1, lift. rewrite X.
    assert (copy_block os dest (copy_dry_run a) mp w1 = (w1, Raise no_app)) as B.
    { unfold copy_block, bind. rewrite F. reflexivity. }
    exact (session_attached os _ _ w _ _ _ _ _ _ _ _ _ _ _ _ _ T A B D C).
  - intros a A. unfold ended. rewrite <- P.
    apply main_at_top. fold w.
    rewrite cmd_verify_session.
    assert (verify_block os mp w1 = (w1, Raise no_app)) as B.
    { unfold verify_block, bind. rewrite F. reflexivity. }
    exact (session_attached os _ _ w _ _ _ _ _ _ _ _ _ _ _ _ _ T A B D C).
  - pose proof (hdiutil_detach_log os dev w1) as L. rewrite D in L. exact L.
  - intros -> ->. reflexivity.
Qed.

(** X5: [detach] needs a target.  With neither a device nor a mount
    point, or only empty ones, [cmd_detach] runs nothing, prints
    nothing, writes one line to standard error and leaves with
    [SystemExit(2)].  With a device it detaches the device, whatever
    the mount point says.  It prints that the target is unmounted when
    the detach returned, and only then. *)
Theorem cmd_detach_needs_a_target (a : detach_args) (t : Top H) :
  (truthy_opt (detach_device a) = false ->
   truthy_opt (detach_mountpoint a) = false ->
   cmd_detach os a t =
     (mkTop (world t) (errors t ++ ["Укажите -dev ИЛИ -m для отмонтирования."]),
      SystemExit 2))
  /\ (forall dev, detach_device a = Some dev -> dev <> "" ->
        detach_target a = Some dev)
  /\ (forall target, detach_target a = Some target ->
        let '(w', r) := hdiutil_detach os target (world t) in
        cmd_detach os a t =
          match r with
          | Ok _ =>
              (mkTop (mkWorld (files w') (hidden w')
                        (printed (world t) ++ ["Отмонтировано: " +:+ target]) (log w'))
                 (errors t), Returned)
          | Raise e => (mkTop w' (errors t), Raised e)
          end
        /\ printed w' = printed (world t)
        /\ exists rest, log w' = log (world t) ++ detach_cmd target :: rest).
Proof.
  split; [|split].
  - intros D M. unfold cmd_detach, detach_target. rewrite D, M. reflexivity.
  - intros dev D N. unfold detach_target. rewrite D. simpl.
    destruct dev; [contradiction|reflexivity].
  - intros target E.
    pose proof (hdiutil_detach_printed target (world t)) as P.
    pose proof (hdiutil_detach_log os target (world t)) as L.
    unfold cmd_detach, at_top, bind, print. rewrite E.
    destruct (hdiutil_detach os target (world t)) as [w' [[]|e]]; simpl in *.
    + rewrite P. split; [reflexivity|]. split; [reflexivity|].
      destruct L as [-> | ->]; eexists; reflexivity.
    + split; [reflexivity|]. split; [exact P|].
      destruct L as [-> | ->]; eexists; reflexivity.
Qed.

(** X6: a detach that fails for good.  When the plain detach and the
    forced one both end with a non-zero status, [main] calls
    [sys.exit] with the status of the forced one, prints nothing, and
    reports the forced command, its status and what it wrote on
    standard error. *)
Theorem failed_detach_exit_status (describe : exn -> string) (a : detach_args)
    (t : Top H) target h1 fs1 rc1 out1 err1 h2 fs2 rc2 out2 err2 :
  detach_target a = Some target ->
  exec os (detach_cmd target) (hidden (world t)) (files (world t)) =
    (h1, fs1, Exited rc1 out1 err1) ->
  rc1 <> 0%Z ->
  exec os (force_cmd target) h1 fs1 = (h2, fs2, Exited rc2 out2 err2) ->
  rc2 <> 0%Z ->
  main describe "darwin" (cmd_detach os a) t =
    (mkTop
       (mkWorld fs2 h2 (printed (world t))
          (log (world t) ++ [detach_cmd target; force_cmd target]))
       (errors t ++ failure_report rc2 (force_cmd target) out2 err2), rc2).
Proof.
  intros E E1 N1 E2 N2.
  pose proof (hdiutil_detach_outcome os (world t) target) as P.
  rewrite E1, E2 in P.
  unfold main, cmd_detach, at_top, bind. rewrite E. simpl.
  destruct (hdiutil_detach os target (world t)) as [w' r].
  assert (exited_nonzero (Exited rc1 out1 err1) = true) as F1.
  { simpl. apply Z.eqb_neq in N1. rewrite N1. reflexivity. }
  rewrite F1 in P. destruct P as (L & Fi & Hi & Pr & R).
  unfold checked in R. apply Z.eqb_neq in N2. rewrite N2 in R. subst r.
  unfold failure_report, eprint. simpl.
  destruct w' as [fs' h' pr' lg']. simpl in *. subst.
  destruct (Py.truthy out2); destruct (Py.truthy err2); simpl;
    repeat rewrite <- app_assoc; reflexivity.
Qed.

(** X14: [copy] reports after the copy.  In a run that attaches the
    image and finds a bundle, the line that the copy is done, with the
    path [copy_app] returned (and the dry-run mark in a dry run), is
    printed when [copy_app] returned and only then, and nothing else is
    printed after the copy; the detach runs in either case, after the
    copy, however it goes itself; [main] ends as the last error among
    the copy, the detach and the removal of the temporary directory
    has it, and with the code 0 and nothing on standard error when all
    three returned. *)
Theorem cmd_copy_reports_after_copy (describe : exn -> string)
    (a : copy_args) (t : Top H)
    dest h0 fs0 tmp w1 mp dev app w2 r2 w3 r3 h4 fs4 r4 :
  let w := world t in
  let ended := main describe "darwin" (at_top (cmd_copy os a)) t in
  let done :=
    match r2 with
    | Ok out => [(if copy_dry_run a then "[DRY-RUN] " else "")
                 +:+ "Готово: " +:+ to_str out]
    | Raise _ => []
    end in
  let r := last_word r4 r3 (match r2 with Ok _ => Ok tt | Raise e => Raise e end) in
  expanduser os (of_str (copy_dest a)) = Ok dest ->
  mkdtemp os "pokerok_mnt_" (hidden w) (files w) = (h0, fs0, Ok tmp) ->
  hdiutil_attach os (of_str (copy_dmg a)) (Some (of_str tmp))
    (after_mkdtemp w h0 fs0) = (w1, Ok (mp, dev)) ->
  List.head (FS.rglob_app (glob_order os) mp (files w1)) = Some app ->
  copy_app app dest (copy_dry_run a) w1 = (w2, r2) ->
  hdiutil_detach os dev (fst (copy_block os dest (copy_dry_run a) mp w1)) = (w3, r3) ->
  cleanup os tmp (hidden w3) (files w3) = (h4, fs4, r4) ->
  ended =
    (mkTop (mkWorld fs4 h4 (printed w3) (log w3))
       (errors t ++ error_lines describe r), exit_code r)
  /\ printed w3 = printed w2 ++ done
  /\ (log w3 = log w2 ++ [detach_cmd dev]
      \/ log w3 = log w2 ++ [detach_cmd dev; force_cmd dev])
  /\ (forall out, r2 = Ok out -> r3 = Ok tt -> r4 = Ok tt ->
      snd ended = 0%Z /\ errors (fst ended) = errors t).
Proof.
  intros w ended done r X T A F CA D C.
  assert (copy_block os dest (copy_dry_run a) mp w1 =
          (mkWorld (files w2) (hidden w2) (printed w2 ++ done) (log w2),
           match r2 with Ok _ => Ok tt | Raise e => Raise e end)) as B.
  { unfold copy_block, find_app_bundle, read_files, bind at 1. rewrite F.
    unfold bind. rewrite CA. unfold done. destruct r2 as [out|e]; [reflexivity|].
    rewrite app_nil_r. destruct w2; reflexivity. }
  rewrite B in D. cbn [fst] in D.
  assert (ended =
          (mkTop (mkWorld fs4 h4 (printed w3) (log w3))
             (errors t ++ error_lines describe r), exit_code r)) as R.
  { unfold ended. apply main_at_top. fold w.
    rewrite cmd_copy_session. unfold bind at 1, lift. rewrite X.
    exact (session_attached os _ _ w _ _ _ _ _ _ _ _ _ _ _ _ _ T A B D C). }
  split; [exact R|]. split; [|split].
  - pose proof (hdiutil_detach_printed dev
                  (mkWorld (files w2) (hidden w2) (printed w2 ++ done) (log w2))) as P.
    rewrite D in P. exact P.
  - pose proof (hdiutil_detach_log os dev
                  (mkWorld (files w2) (hidden w2) (printed w2 ++ done) (log w2))) as L.
    rewrite D in L. exact L.
  - intros out E -> ->. rewrite R. unfold r. rewrite E. simpl.
    rewrite app_nil_r. split; reflexivity.
Qed.

End MainProperties.

(** ** [mount], [info] and [hash] *)

Section MountProperties.

Context {H : Type} (os : Platform H).

Lemma mount_at_log (dmg mnt : string) (w : World H) :
  log (fst (mount_at os dmg mnt w)) = log w
  \/ log (fst (mount_at os dmg mnt w)) = log w ++ [mount_cmd dmg mnt].
Proof.
  unfold mount_at. pose proof (hdiutil_attach_log os dmg mnt w) as [_ L].
  destruct (hdiutil_attach os (of_str dmg) (Some (of_str mnt)) w) as [w1 [[mp dev]|e]];
    exact L.
Qed.

(** X7: [mount] leaves the image attached.  With a non-empty mount
    point given it asks for no temporary directory and attaches there;
    otherwise it attaches at a fresh temporary directory, which it never
    removes.  It runs at most one command, the attach, and never a
    detach; after a successful attach it prints the mount point with the
    device, and the hint. *)
Theorem cmd_mount_leaves_attached (a : mount_args) (w : World H) :
  (forall mnt, mount_mountpoint a = Some mnt -> mnt <> "" ->
     cmd_mount os a w = mount_at os (mount_dmg a) mnt w)
  /\ (truthy_opt (mount_mountpoint a) = false ->
      match mkdtemp os "pokerok_mnt_" (hidden w) (files w) with
      | (h0, fs0, Ok tmp) =>
          cmd_mount os a w = mount_at os (mount_dmg a) tmp (after_mkdtemp w h0 fs0)
      | (h0, fs0, Raise e) => cmd_mount os a w = (after_mkdtemp w h0 fs0, Raise e)
      end)
  /\ (exists added,
        log (fst (cmd_mount os a w)) = log w ++ added
        /\ (length added <= 1)%nat
        /\ List.Forall (fun cmd => is_detach cmd = false) added).
Proof.
  assert (forall mnt w0, (mnt' <- ret (of_str mnt) ;;
            md <- hdiutil_attach os (of_str (mount_dmg a)) (Some mnt') ;;
            (let '(mp, dev) := md in
             print ("Смонтировано: " +:+ to_str mp +:+ newline +:+ "Устройство: " +:+ dev) ;;;
             print "Подсказка: для отмонтирования используйте: detach -m <mountpoint> или detach -dev <device>")) w0
          = mount_at os (mount_dmg a) mnt w0) as Step.
  { intros mnt w0. unfold mount_at, bind, ret, print.
    destruct (hdiutil_attach os _ _ w0) as [w1 [[mp dev]|e]]; simpl;
      [rewrite <- app_assoc|]; reflexivity. }
  assert (forall mnt, mount_mountpoint a = Some mnt -> mnt <> "" ->
            cmd_mount os a w = mount_at os (mount_dmg a) mnt w) as Given.
  { intros mnt M N. rewrite <- Step. unfold cmd_mount. rewrite M. simpl.
    destruct mnt; [contradiction|reflexivity]. }
  assert (truthy_opt (mount_mountpoint a) = false ->
      match mkdtemp os "pokerok_mnt_" (hidden w) (files w) with
      | (h0, fs0, Ok tmp) =>
          cmd_mount os a w = mount_at os (mount_dmg a) tmp (after_mkdtemp w h0 fs0)
      | (h0, fs0, Raise e) => cmd_mount os a w = (after_mkdtemp w h0 fs0, Raise e)
      end) as Temp.
  { intros F. unfold cmd_mount. rewrite F.
    destruct (mkdtemp os "pokerok_mnt_" (hidden w) (files w)) as [[h0 fs0] [tmp|e]] eqn:T.
    - rewrite <- Step. unfold bind, make_tempdir, ret, after_mkdtemp. rewrite T.
      reflexivity.
    - unfold bind, make_tempdir, after_mkdtemp. rewrite T. reflexivity. }
  split; [exact Given|]. split; [exact Temp|].
  assert (forall mnt w0, exists added,
            log (fst (mount_at os (mount_dmg a) mnt w0)) = log w0 ++ added
            /\ (length added <= 1)%nat
            /\ List.Forall (fun cmd => is_detach cmd = false) added) as Log.
  { intros mnt w0. destruct (mount_at_log (mount_dmg a) mnt w0) as [L|L]; rewrite L.
    - exists []. rewrite app_nil_r. repeat split; auto.
    - exists [mount_cmd (mount_dmg a) mnt]. repeat split; auto. }
  destruct (truthy_opt (mount_mountpoint a)) eqn:M.
  - destruct (mount_mountpoint a) as [mnt|] eqn:E; [|discriminate].
    rewrite (Given mnt eq_refl) by (intros ->; discriminate). apply Log.
  - specialize (Temp eq_refl).
    destruct (mkdtemp os "pokerok_mnt_" (hidden w) (files w)) as [[h0 fs0] [tmp|e]].
    + rewrite Temp. apply (Log tmp (after_mkdtemp w h0 fs0)).
    + rewrite Temp. exists []. rewrite app_nil_r. repeat split; auto.
Qed.

End MountProperties.

Section InfoProperties.

Context {H : Type} (os : Platform H)
  {V : Type} (loads_info : string -> option (gmap string V)) (show : V -> string).

Lemma info_lines_cons (pl : gmap string V) (k key : string)
    (fields : list (string * string)) :
  info_lines show pl ((k, key) :: fields) =
    match pl !! key with
    | Some v => ("- " +:+ k +:+ ": " +:+ show v) :: info_lines show pl fields
    | None => info_lines show pl fields
    end.
Proof. unfold info_lines. simpl. destruct (pl !! key); reflexivity. Qed.

Lemma print_fields_lines (pl : gmap string V) (fields : list (string * string))
    (w : World H) :
  print_fields show pl fields w =
    (mkWorld (files w) (hidden w) (printed w ++ info_lines show pl fields) (log w),
     Ok tt).
Proof.
  revert w. induction fields as [|[k key] fields IH]; intros w.
  - unfold info_lines. simpl. unfold ret. rewrite app_nil_r. destruct w; reflexivity.
  - rewrite info_lines_cons.
    change (print_fields show pl ((k, key) :: fields) w)
      with (bind (match pl !! key with
                  | Some v => print ("- " +:+ k +:+ ": " +:+ show v)
                  | None => ret tt
                  end) (fun _ => print_fields show pl fields) w).
    unfold bind. destruct (pl !! key) as [v|].
    + unfold print. rewrite IH. cbn [files hidden printed log].
      rewrite <- app_assoc. reflexivity.
    + unfold ret. rewrite IH. reflexivity.
Qed.

(** X8: [info] runs one command, [hdiutil imageinfo -plist] on the
    image, and nothing else.  When the command succeeds and its output
    can be read it prints the header and then one line for each of the
    seven keys the descriptor has, in the fixed order Format, Block
    Count, Sector Size, Checksum Type, Checksum, Partitions, Software
    License Agreement; a key the descriptor lacks gives no line and no
    error.  A failed command or unreadable output raises before
    anything is printed. *)
Theorem cmd_info_prints_present_fields (a : info_args) (w : World H) :
  let cmd := imageinfo_cmd (of_str (info_dmg a)) in
  let '(h1, fs1, o) := exec os cmd (hidden w) (files w) in
  let ran := mkWorld fs1 h1 (printed w) (log w ++ [cmd]) in
  cmd_info os loads_info show a w =
    match o with
    | Exited rc out err =>
        if (rc =? 0)%Z
        then match loads_info out with
             | Some pl =>
                 (mkWorld fs1 h1
                    (printed w ++ ("Информация об образе: " +:+ info_dmg a)
                                  :: info_lines show pl info_fields)
                    (log w ++ [cmd]), Ok tt)
             | None => (ran, Raise InvalidFileException)
             end
        else (ran, Raise (CalledProcessError rc cmd out err))
    | Undecodable _ => (ran, Raise UnicodeDecodeError)
    | NotLaunched e => (ran, Raise (OSError e))
    end.
Proof.
  intros cmd. unfold cmd_info, hdiutil_imageinfo_plist, bind, run, lift.
  fold cmd.
  destruct (exec os cmd (hidden w) (files w)) as [[h1 fs1] [rc out err|rc|e]];
    [|reflexivity|reflexivity].
  cbn [andb]. destruct (rc =? 0)%Z; cbn [negb stdout]; [|reflexivity].
  destruct (loads_info out) as [pl|]; [|reflexivity].
  unfold print at 1. rewrite print_fields_lines. cbn [files hidden printed log].
  rewrite <- app_assoc. reflexivity.
Qed.

End InfoProperties.

Section HashProperties.

Context {state : Type} (sha256 : state)
  (update : state -> string -> state) (hexdigest : state -> string).

Lemma read_glue (n : N) (data : string) :
  fst (read n data) +:+ snd (read n data) = data.
Proof.
  revert n. induction data as [|c data IH]; intros n; simpl; [reflexivity|].
  destruct (n =? 0)%N; [reflexivity|].
  specialize (IH (N.pred n)). destruct (read (N.pred n) data) as [a b].
  simpl in *. change (String c (a +:+ b) = String c data). rewrite IH. reflexivity.
Qed.

Lemma read_length (n : N) (data : string) :
  N.of_nat (String.length (fst (read n data))) = N.min n (N.of_nat (String.length data)).
Proof.
  revert n. induction data as [|c data IH]; intros n; simpl.
  - lia.
  - destruct (n =? 0)%N eqn:Z.
    + apply N.eqb_eq in Z. subst. simpl. lia.
    + apply N.eqb_neq in Z. specialize (IH (N.pred n)).
      destruct (read (N.pred n) data) as [a b]. simpl in *. lia.
Qed.

Lemma truthy_length (s : string) : Py.truthy s = true -> (0 < String.length s)%nat.
Proof. destruct s; simpl; [discriminate|lia]. Qed.

Lemma feed_chunks (fuel : nat) (size : N) (data : string) (h : state) (total : N) :
  feed update fuel size data h total =
    (List.fold_left update (chunks fuel size data) h,
     (total + N.of_nat (String.length (glue (chunks fuel size data))))%N).
Proof.
  revert data h total. induction fuel as [|fuel IH]; intros data h total; simpl.
  - f_equal. lia.
  - destruct (read size data) as [chunk rest].
    destruct (Py.truthy chunk); simpl.
    + rewrite IH. f_equal. rewrite length_append. lia.
    + f_equal. lia.
Qed.

(** With a chunk size of at least one byte and fuel beyond the length
    of the data, the chunks are the data. *)
Lemma chunks_glue (fuel : nat) (size : N) (data : string) :
  (0 < size)%N -> (String.length data < fuel)%nat ->
  glue (chunks fuel size data) = data.
Proof.
  intros S. revert data. induction fuel as [|fuel IH]; intros data L; [lia|].
  simpl. pose proof (read_glue size data) as G.
  pose proof (read_length size data) as RL.
  destruct (read size data) as [chunk rest]. simpl in *.
  destruct (Py.truthy chunk) eqn:T.
  - simpl. rewrite IH; [exact G|].
    apply truthy_length in T. rewrite <- G, length_append in L. lia.
  - destruct chunk; [|discriminate]. simpl in *.
    destruct data; [reflexivity|]. simpl in RL. lia.
Qed.

Lemma chunks_bounded (fuel : nat) (size : N) (data : string) :
  List.Forall (fun c => c <> "" /\ (N.of_nat (String.length c) <= size)%N)
    (chunks fuel size data).
Proof.
  revert data. induction fuel as [|fuel IH]; intros data; simpl; [constructor|].
  pose proof (read_length size data) as RL.
  destruct (read size data) as [chunk rest]. simpl in *.
  destruct (Py.truthy chunk) eqn:T; [|constructor].
  constructor; [|apply IH]. split; [intros ->; discriminate|lia].
Qed.

Lemma fold_update_glue (cs : list string) (h : state) :
  (forall s a b, update (update s a) b = update s (a +:+ b)) ->
  cs <> [] -> List.fold_left update cs h = update h (glue cs).
Proof.
  intros Law. revert h. induction cs as [|c cs IH]; intros h N; [contradiction|].
  destruct cs as [|c' cs].
  - unfold glue. cbn [List.fold_left List.fold_right].
    rewrite append_empty_r. reflexivity.
  - change (List.fold_left update (c' :: cs) (update h c) =
            update h (c +:+ glue (c' :: cs))).
    rewrite IH by discriminate. rewrite Law. reflexivity.
Qed.

(** X9: [sha256sum] on a regular file returns the length of the file in
    bytes, and the digest of a hash object that was fed the file in
    consecutive pieces of at most 1 MiB, none of them empty.  For a hash
    where feeding two pieces one after the other is feeding their
    concatenation, as it is for SHA-256, this is the digest of the
    content fed at once, and for the empty file the digest of the fresh
    hash object.  The world is not changed. *)
Theorem sha256sum_size_and_digest {H : Type} (w : World H) (path : Path)
    (data : string) :
  FS.stat (files w) path = inr (FS.File data) ->
  let cs := chunks (S (String.length data)) CHUNK data in
  sha256sum sha256 update hexdigest path w =
    (w, Ok (hexdigest (List.fold_left update cs sha256),
            N.of_nat (String.length data)))
  /\ glue cs = data
  /\ List.Forall (fun c => c <> "" /\ (N.of_nat (String.length c) <= CHUNK)%N) cs
  /\ ((forall s a b, update (update s a) b = update s (a +:+ b)) ->
      List.fold_left update cs sha256 =
        if Py.truthy data then update sha256 data else sha256).
Proof.
  intros S cs.
  assert (glue cs = data) as G.
  { apply chunks_glue; [reflexivity|lia]. }
  split; [|split; [exact G|split; [apply chunks_bounded|]]].
  - unfold sha256sum. rewrite S, feed_chunks. fold cs. rewrite G. reflexivity.
  - intros Law. destruct cs as [|c cs'] eqn:E.
    + simpl in G. subst data. reflexivity.
    + rewrite fold_update_glue by (auto; discriminate). rewrite G.
      destruct data; [discriminate|reflexivity].
Qed.

End HashProperties.

(** ** More on copying, and on the device *)

Section MoreCopyProperties.

Context {H : Type}.

Import FS FSFacts TreeFacts AvoidFacts CopyFacts.

(** X10: a dry run towards a directory that is there changes nothing on
    the disk: it prints the one line with source and would-be
    destination and returns the destination.  It does not look at the
    source at all. *)
Theorem dry_run_keeps_existing_tree (w : World H) (app_src dest_dir : Path) :
  is_dir (files w) dest_dir = true ->
  let dest := div dest_dir (name app_src) in
  copy_app app_src dest_dir true w =
    (mkWorld (files w) (hidden w)
       (printed w ++ ["[DRY-RUN] Скопировал бы: " +:+ to_str app_src
                      +:+ " -> " +:+ to_str dest])
       (log w), Ok dest).
Proof.
  intros D dest. rewrite copy_app_dry_run. cbv zeta.
  rewrite (Path_mkdir_existing _ _ D). reflexivity.
Qed.

(** X11: a first installation.  The destination directory is at [d] and
    has no entry under the bundle's name; the source is a directory
    with entries [ses] that does not contain the destination.  Then
    [copy_app] returns the destination, the tree there is the source
    tree, and nothing apart from it has changed. *)
Theorem copy_app_installs_on_free_name (w : World H) (app_src dest_dir : Path)
    (d s : list string) (des ses : list (string * node)) :
  let c := name app_src in
  let dest := div dest_dir c in
  let away := d ++ [c] in
  plain c ->
  namei_avoiding away (files w) dest_dir = inr d ->
  get (root (files w)) d = Some (Dir des) ->
  assoc c des = None ->
  namei_avoiding away (files w) app_src = inr s ->
  get (root (files w)) s = Some (Dir ses) ->
  is_prefix s away = false ->
  exists r',
    copy_app app_src dest_dir false w =
      (mkWorld (with_root (files w) r') (hidden w) (printed w) (log w), Ok dest)
    /\ get r' away = Some (Dir ses)
    /\ (forall q, is_prefix away q = false -> is_prefix q away = false ->
          get r' q = get (root (files w)) q).
Proof.
  intros c dest away PC ND GD A NS GS PS.
  exists (installed (root (files w)) d c ses). split; [|split].
  - exact (copy_app_fresh w app_src dest_dir d s des ses PC ND GD A NS GS PS).
  - exact (get_installed _ _ _ des ses GD A).
  - intros q Off NotAbove. exact (get_installed_apart _ _ _ _ _ Off NotAbove).
Qed.

(** X12: a source that is not a directory.  [find_app_bundle] may
    return a file; [copy_app] tests nothing about its source before it
    clears the destination.  With an existing, replaceable entry at the
    destination and a source that is a regular file, [copy_app] removes
    the entry, then [copytree] raises: the old installation is gone and
    nothing has taken its place. *)
Theorem copy_app_file_source_clears_destination (w : World H)
    (app_src dest_dir : Path) (d s : list string) (des : list (string * node))
    (old : node) (data : string) :
  let c := name app_src in
  let dest := div dest_dir c in
  let away := d ++ [c] in
  plain c ->
  namei_avoiding away (files w) dest_dir = inr d ->
  get (root (files w)) d = Some (Dir des) ->
  assoc c des = Some old ->
  (exists oes, old = Dir oes)
  \/ (exists_ (files w) dest = true /\ is_dir (files w) dest = false) ->
  namei_avoiding away (files w) app_src = inr s ->
  get (root (files w)) s = Some (File data) ->
  let r' := update (root (files w)) d (remove_entry c) in
  copy_app app_src dest_dir false w =
    (mkWorld (with_root (files w) r') (hidden w) (printed w) (log w),
     Raise (OSError NotADirectoryError))
  /\ get r' away = None.
Proof.
  intros c dest away [PC [D DD]] ND GD A OLD NS GS r1.
  set (fs := files w) in *.
  destruct (namei_avoiding_stat _ _ _ _ _ ND GD) as (WD & SD & _).
  destruct (namei_avoiding_stat _ _ _ _ _ NS GS) as (_ & _ & OffS).
  assert (dest = child dest_dir c) as ED by (apply div_plain; split; auto).
  assert (get (root fs) away = Some old) as GO.
  { unfold away. rewrite get_snoc, GD. exact A. }
  assert (is_prefix s away = false) as PS.
  { destruct (is_prefix s away) eqn:P; [|reflexivity]. exfalso.
    apply is_prefix_spec in P. destruct P as [t P].
    rewrite P, get_app, GS in GO. destruct t as [|x t]; [|discriminate].
    rewrite app_nil_r in P. rewrite P, is_prefix_refl in OffS. discriminate. }
  set (fs1 := with_root fs r1).
  assert ((if exists_ fs dest
           then if is_dir fs dest then rmtree dest fs else unlink dest fs
           else (fs, Ok tt)) = (fs1, Ok tt)) as REM.
  { destruct OLD as [[oes ->]|[EX NDir]].
    - assert (forall t, Dir oes <> Link t) as NL by (intros t; discriminate).
      assert (stat fs dest = inr (Dir oes)) as SO.
      { rewrite ED. exact (proj1 (stat_child fs dest_dir c des (Dir oes) SD D DD A NL)). }
      unfold exists_, is_dir. rewrite SO. rewrite ED.
      exact (rmtree_entry fs dest_dir c d des oes D DD WD GD A).
    - rewrite EX, NDir, ED.
      apply (unlink_entry fs dest_dir c d des old D DD WD GD A).
      intros oes ->.
      assert (forall t, Dir oes <> Link t) as NL by (intros t; discriminate).
      assert (stat fs dest = inr (Dir oes)) as SO.
      { rewrite ED. exact (proj1 (stat_child fs dest_dir c des (Dir oes) SD D DD A NL)). }
      unfold is_dir in NDir. rewrite SO in NDir. discriminate. }
  assert (agree away (root fs) r1) as AG by (apply agree_keeps, keeps_remove).
  assert (copytree app_src dest fs1 = (fs1, Raise (OSError NotADirectoryError))) as CP.
  { assert (namei_avoiding away fs1 app_src = inr s) as NS1.
    { unfold fs1. rewrite (namei_avoiding_agree _ _ _ _ AG). exact NS. }
    assert (get (root fs1) s = Some (File data)) as GS1.
    { unfold fs1, r1. cbn [root with_root].
      rewrite (get_update_keeps_apart _ _ _ c (remove_entry c) (keeps_remove c) OffS PS).
      exact GS. }
    destruct (namei_avoiding_stat _ _ _ _ _ NS1 GS1) as (WS1 & _ & _).
    unfold copytree. rewrite WS1, GS1. reflexivity. }
  split.
  - rewrite copy_app_steps by (unfold is_dir; fold fs; rewrite SD; reflexivity).
    cbv zeta. fold fs c dest. rewrite REM, CP. reflexivity.
  - unfold r1, away. rewrite get_snoc, get_update_same, GD.
    apply assoc_remove_same.
Qed.

End MoreCopyProperties.

Section DeviceProperties.

Lemma last_some_last {A B} (f : A -> option B) (pre post : list A) (x : A) (y : B) :
  f x = Some y -> List.Forall (fun z => f z = None) post ->
  last_some f (pre ++ x :: post) = Some y.
Proof.
  intros X P. apply last_some_None in P.
  induction pre as [|a pre IH]; simpl.
  - rewrite P. exact X.
  - rewrite IH. reflexivity.
Qed.

Lemma first_some_first {A B} (f : A -> option B) (pre post : list A) (x : A) (y : B) :
  List.Forall (fun z => f z = None) pre -> f x = Some y ->
  first_some f (pre ++ x :: post) = Some y.
Proof.
  intros P X. induction pre as [|a pre IH]; simpl.
  - rewrite X. reflexivity.
  - inversion P as [|? ? Pa Pp]; subst. rewrite Pa. apply IH. exact Pp.
Qed.

(** X13: the device [hdiutil_attach] returns.  It is the device node of
    the last entry of the report that has one and whose content hint
    starts with [Apple_HFS], if that node is not the empty string.
    When no entry with a device node has such a hint, it is the device
    node of the first entry that has one, whatever its hint.  And
    whenever the attach parsing returns a pair, it is the chosen mount
    point with the chosen device. *)
Theorem device_from_hfs_entry_else_first (ents : list entity) :
  (forall pre e post d,
     ents = pre ++ e :: post ->
     e !! "dev-entry" = Some d -> hfs_hint e = true -> d <> "" ->
     List.Forall (fun x => hfs_device_of x = None) post ->
     chosen_device ents = Some d)
  /\ (forall pre e post d,
        List.Forall (fun x => hfs_device_of x = None) ents ->
        ents = pre ++ e :: post ->
        List.Forall (fun x => x !! "dev-entry" = None) pre ->
        e !! "dev-entry" = Some d ->
        chosen_device ents = Some d)
  /\ (forall m d,
        resolve_mount ents = Ok (m, d) ->
        chosen_mnt ents = Some m /\ chosen_device ents = Some d /\ d <> "").
Proof.
  split; [|split].
  - intros pre e post d -> D Hf N P.
    rewrite chosen_device_cases.
    rewrite (last_some_last hfs_device_of pre post e d); auto.
    + simpl. destruct d; [contradiction|reflexivity].
    + unfold hfs_device_of, device_of. rewrite Hf. exact D.
  - intros pre e post d NoH -> P D.
    rewrite chosen_device_cases.
    apply last_some_None in NoH. rewrite NoH. simpl.
    rewrite (first_some_first device_of pre post e d); auto.
  - intros m d R. rewrite resolve_mount_cases in R.
    destruct (chosen_mnt ents) as [m'|]; [|discriminate].
    destruct (chosen_device ents) as [d'|]; simpl in R; [|discriminate].
    destruct d' as [|x d']; simpl in R; [discriminate|].
    inversion R; subst. repeat split. discriminate.
Qed.

End DeviceProperties.

(** * The properties at work on the small platform *)

(** C2, where the code leaves the claim.  The report has an HFS volume
    mounted at /Volumes/PokerOK and, after it, a volume of another kind
    mounted at /Volumes/EXTRAS.  The claim takes mount point and device
    from the HFS entry; [hdiutil_attach] takes the device from it and the
    mount point from the last entry that has one. *)
Theorem mount_point_from_last_entry :
  resolve_mount two_volumes = Ok (of_str "/Volumes/EXTRAS", "/dev/disk4s1")
  /\ exists ent,
       List.In ent two_volumes
       /\ hfs_hint ent = true
       /\ device_of ent = Some "/dev/disk4s1"
       /\ mount_of ent = Some (of_str "/Volumes/PokerOK").
Proof.
  split; [vm_compute; reflexivity|].
  eexists. split; [right; left; reflexivity|].
  repeat split; vm_compute; reflexivity.
Qed.

(** C3, where the code leaves the claim.  /Users/me/Apps does not
    exist.  A dry run towards /Users/me/Apps/Games returns the would-be
    path and copies nothing, but it has made both directories. *)
Theorem dry_run_makes_destination_directory :
  FS.stat Demo.disk (of_str "/Users/me/Apps") = inl FileNotFoundError
  /\ (let '(w', r) :=
        copy_app Demo.app (of_str "/Users/me/Apps/Games") true Demo.world in
      r = Ok (of_str "/Users/me/Apps/Games/PokerOK.app")
      /\ FS.stat (files w') (of_str "/Users/me/Apps") =
           inr (FS.Dir [("Games", FS.Dir [])])
      /\ FS.lstat (files w') (of_str "/Users/me/Apps/Games/PokerOK.app") =
           inl FileNotFoundError).
Proof. vm_compute. repeat split; reflexivity. Qed.

(** C4, the claim as stated fails: the first match is a file.  The
    volume holds the file [._PokerOK.app] and the directory
    [PokerOK.app]; [find_app_bundle] returns the file. *)
Lemma find_app_bundle_returns_a_file :
  find_app_bundle Demo.platform (of_str "/Volumes/PokerOK") Demo.appledouble_world =
    (Demo.appledouble_world, Ok (Some (of_str "/Volumes/PokerOK/._PokerOK.app")))
  /\ FS.stat (files Demo.appledouble_world) (of_str "/Volumes/PokerOK/._PokerOK.app") =
       inr (FS.File "resource fork")
  /\ FS.is_dir (files Demo.appledouble_world) (of_str "/Volumes/PokerOK/._PokerOK.app") =
       false
  /\ FS.is_dir (files Demo.appledouble_world) (of_str "/Volumes/PokerOK/PokerOK.app") =
       true.
Proof. vm_compute. repeat split; reflexivity. Qed.

Lemma find_app_bundle_first_entry_witness :
  FS.stat (files Demo.attached) (of_str Demo.tmp) = inr (FS.Dir Demo.image)
  /\ find_app_bundle Demo.platform (of_str Demo.tmp) Demo.attached =
       (Demo.attached, Ok (Some Demo.app)).
Proof.
  assert (FS.stat (files Demo.attached) (of_str Demo.tmp) = inr (FS.Dir Demo.image))
    as S by (vm_compute; reflexivity).
  split; [exact S|].
  destruct (find_app_bundle_first_entry Demo.platform Demo.attached
              (of_str Demo.tmp) Demo.image S) as (E & _ & _ & T).
  rewrite E.
  rewrite (T [("README.txt", FS.File "read me")] "PokerOK.app"
             (FS.Dir Demo.bundle)
             [("Applications", FS.Link (mkPath true ["Applications"]))]);
    [reflexivity|reflexivity|repeat constructor|reflexivity].
Defined.

Lemma attach_raises_iff_undetermined_witness :
  snd (attach_report Demo.platform (of_str "pokerok.dmg") (Some (of_str Demo.tmp))
         Demo.world) = Ok Demo.report
  /\ chosen_mnt Demo.report = Some (of_str Demo.tmp)
  /\ chosen_device Demo.report = Some "/dev/disk4s1"
  /\ "/dev/disk4s1" <> ""
  /\ snd (hdiutil_attach Demo.platform (of_str "pokerok.dmg") (Some (of_str Demo.tmp))
            Demo.world) = Ok (of_str Demo.tmp, "/dev/disk4s1").
Proof.
  assert (snd (attach_report Demo.platform (of_str "pokerok.dmg")
                 (Some (of_str Demo.tmp)) Demo.world) = Ok Demo.report)
    as R by (vm_compute; reflexivity).
  assert (chosen_mnt Demo.report = Some (of_str Demo.tmp))
    as M by (vm_compute; reflexivity).
  assert (chosen_device Demo.report = Some "/dev/disk4s1")
    as D by (vm_compute; reflexivity).
  assert ("/dev/disk4s1" <> "") as N by discriminate.
  repeat (split; [assumption|]).
  destruct (attach_raises_iff_undetermined Demo.platform (of_str "pokerok.dmg")
              (Some (of_str Demo.tmp)) Demo.world) as (_ & A & _).
  rewrite (A _ _ _ R M D N). reflexivity.
Defined.

(** C6, the claim as stated fails: a first attempt that fails is not
    always followed by the forced one.  Where [hdiutil] cannot be
    started, and where it refuses in bytes that are not text, the plain
    detach has failed, the forced detach is not run, and the caller
    gets the error of the plain one. *)
Lemma hdiutil_detach_gives_up_unless_exited :
  hdiutil_detach Demo2.elsewhere "/dev/disk4s1" Demo.world =
    (mkWorld Demo.disk false [] [detach_cmd "/dev/disk4s1"],
     Raise (OSError FileNotFoundError))
  /\ exec Demo2.garbled (detach_cmd "/dev/disk4s1") false Demo.disk =
       (false, Demo.disk, Undecodable 1)
  /\ hdiutil_detach Demo2.garbled "/dev/disk4s1" Demo.world =
       (mkWorld Demo.disk false [] [detach_cmd "/dev/disk4s1"],
        Raise UnicodeDecodeError).
Proof. vm_compute. repeat split; reflexivity. Qed.



Lemma list_top_sorted_annotated_witness :
  FS.stat (files Demo.ab_world) (of_str "/Volumes/AB") =
    inr (FS.Dir [("B", FS.File "b"); ("A", FS.Dir [])])
  /\ list_top (of_str "/Volumes/AB") Demo.ab_world =
       (Demo.ab_world, Ok ["[D] A"; "[F] B"]).
Proof.
  assert (FS.stat (files Demo.ab_world) (of_str "/Volumes/AB") =
            inr (FS.Dir [("B", FS.File "b"); ("A", FS.Dir [])]))
    as S by (vm_compute; reflexivity).
  split; [exact S|].
  destruct (list_top_sorted_annotated Demo.ab_world (of_str "/Volumes/AB") _ S)
    as (_ & _ & _ & _ & E).
  apply (E [] "b"). right. reflexivity.
Defined.

(** C8, where the code leaves the claim.  /Applications/PokerOK.app is
    a link to the directory /opt/PokerOK.app.  The destination exists
    and [is_dir] follows the link, so [copy_app] hands the link to
    [rmtree], which refuses it: [copy_app] raises, the old entry is
    still there and nothing has been copied.  When the link leads to a
    file instead, the other branch removes the link itself and the copy
    takes its place. *)
Theorem copy_app_keeps_link_to_directory :
  FS.exists_ (files Demo.linked_world) (of_str "/Applications/PokerOK.app") = true
  /\ FS.stat (files Demo.linked_world) (of_str "/Volumes/PokerOK/PokerOK.app") =
       FS.stat (files Demo.attached) Demo.app
  /\ copy_app (of_str "/Volumes/PokerOK/PokerOK.app") (of_str "/Applications") false
       Demo.linked_world = (Demo.linked_world, Raise (OSError RmtreeOnSymlink))
  /\ (let '(w', r) :=
        copy_app (of_str "/Volumes/PokerOK/PokerOK.app") (of_str "/Applications") false
          Demo2.file_linked_world in
      r = Ok (of_str "/Applications/PokerOK.app")
      /\ FS.lstat (files w') (of_str "/Applications/PokerOK.app") =
           inr (FS.Dir Demo.bundle)
      /\ FS.stat (files w') (of_str "/opt/PokerOK.txt") = inr (FS.File "old")).
Proof. vm_compute. repeat split; reflexivity. Qed.

Lemma copy_app_replaces_destination_witness :
  plain (name Demo.app)
  /\ namei_avoiding ["Applications"; "PokerOK.app"] (files Demo.attached)
       (of_str "/Applications") = inr ["Applications"]
  /\ FS.get (FS.root (files Demo.attached)) ["Applications"] =
       Some (FS.Dir [("PokerOK.app", FS.Dir [("stale", FS.File "old")])])
  /\ namei_avoiding ["Applications"; "PokerOK.app"] (files Demo.attached) Demo.app =
       inr ["tmp"; "pokerok_mnt_demo"; "PokerOK.app"]
  /\ FS.get (FS.root (files Demo.attached)) ["tmp"; "pokerok_mnt_demo"; "PokerOK.app"] =
       Some (FS.Dir Demo.bundle)
  /\ exists r',
       copy_app Demo.app (of_str "/Applications") false Demo.attached =
         (mkWorld (FS.with_root (files Demo.attached) r') (hidden Demo.attached)
            (printed Demo.attached) (log Demo.attached),
          Ok (div (of_str "/Applications") (name Demo.app)))
       /\ FS.get r' ["Applications"; "PokerOK.app"] = Some (FS.Dir Demo.bundle)
       /\ FS.get r' ["Applications"; "PokerOK.app"; "Contents"; "Current"] =
            Some (FS.Link (mkPath false ["MacOS"])).
Proof.
  assert (plain (name Demo.app)) as PC by (repeat split; vm_compute; reflexivity).
  assert (namei_avoiding ["Applications"; "PokerOK.app"] (files Demo.attached)
            (of_str "/Applications") = inr ["Applications"])
    as ND by (vm_compute; reflexivity).
  assert (FS.get (FS.root (files Demo.attached)) ["Applications"] =
            Some (FS.Dir [("PokerOK.app", FS.Dir [("stale", FS.File "old")])]))
    as GD by (vm_compute; reflexivity).
  assert (namei_avoiding ["Applications"; "PokerOK.app"] (files Demo.attached) Demo.app =
            inr ["tmp"; "pokerok_mnt_demo"; "PokerOK.app"])
    as NS by (vm_compute; reflexivity).
  assert (FS.get (FS.root (files Demo.attached)) ["tmp"; "pokerok_mnt_demo"; "PokerOK.app"] =
            Some (FS.Dir Demo.bundle))
    as GS by (vm_compute; reflexivity).
  repeat (split; [assumption|]).
  destruct (copy_app_replaces_destination Demo.attached Demo.app (of_str "/Applications")
              ["Applications"] ["tmp"; "pokerok_mnt_demo"; "PokerOK.app"]
              [("PokerOK.app", FS.Dir [("stale", FS.File "old")])]
              Demo.bundle (FS.Dir [("stale", FS.File "old")])
              PC ND GD eq_refl
              (or_introl (ex_intro _ [("stale", FS.File "old")] eq_refl))
              NS GS eq_refl)
    as (r' & E & G & L & _).
  exists r'. split; [exact E|]. split; [exact G|].
  apply (L ["Contents"; "Current"]). reflexivity.
Defined.

Lemma copy_app_returns_destination_witness :
  FS.Path_mkdir (of_str "/Applications") (files Demo.attached) =
    (files Demo.attached, Ok tt)
  /\ snd (copy_app Demo.app (of_str "/Applications") true Demo.attached) =
       Ok (of_str "/Applications/PokerOK.app")
  /\ forall w' p,
       copy_app Demo.app (of_str "/Applications") false Demo.attached = (w', Ok p) ->
       p = of_str "/Applications/PokerOK.app".
Proof.
  assert (FS.Path_mkdir (of_str "/Applications") (files Demo.attached) =
            (files Demo.attached, Ok tt)) as M by (vm_compute; reflexivity).
  destruct (copy_app_returns_destination (H := bool) Demo.app (of_str "/Applications"))
    as (V & D & _).
  split; [exact M|split].
  - exact (D Demo.attached _ M).
  - intros w' p E. exact (V false Demo.attached w' p E).
Defined.

(** * The further properties at work *)

Lemma cmd_list_prints_sorted_children_witness :
  printed (fst (cmd_list Demo.platform {| list_dmg := "pokerok.dmg" |} Demo.world)) =
    ["Содержимое /tmp/pokerok_mnt_demo:"; "   [D] Applications";
     "   [D] PokerOK.app"; "   [F] README.txt"].
Proof.
  rewrite (cmd_list_prints_sorted_children Demo.platform
             {| list_dmg := "pokerok.dmg" |} Demo.world
             false Demo2.with_tmp Demo.tmp Demo.attached (of_str Demo.tmp)
             "/dev/disk4s1" Demo.image);
    vm_compute; reflexivity.
Defined.


Lemma missing_bundle_exit_status_witness :
  snd (main (fun _ => "") "darwin"
         (at_top (cmd_copy Demo2.bare_platform
                    {| copy_dmg := "pokerok.dmg"; copy_dest := "/Applications";
                       copy_dry_run := false |}))
         (mkTop Demo.world [])) = 1%Z
  /\ errors (fst (main (fun _ => "") "darwin"
                    (at_top (cmd_copy Demo2.bare_platform
                               {| copy_dmg := "pokerok.dmg"; copy_dest := "/Applications";
                                  copy_dry_run := false |}))
                    (mkTop Demo.world []))) =
       ["Ошибка: В образе не найден .app пакет."].
Proof.
  assert (forall q, ~ app_entry (of_str Demo.tmp) Demo2.bare_image q) as N.
  { intros q (rel & des & c & m & R & I & A & _).
    inversion R as [|es c' sub rel' m' I' R' E1 E2 E3]; subst.
    - repeat (destruct I as [I|I]; [inversion I; subst; discriminate|]). exact I.
    - destruct I' as [I'|[I'|I']]; try discriminate; [|contradiction].
      inversion I'; subst.
      inversion R' as [|es2 c2 sub2 rel2 m2 I2 R2 F1 F2 F3]; subst.
      + repeat (destruct I as [I|I]; [inversion I; subst; discriminate|]). exact I.
      + destruct I2 as [I2|I2]; [discriminate|contradiction]. }
  destruct (missing_bundle_exit_status Demo2.bare_platform (fun _ => "")
              (mkTop Demo.world [])
              false Demo2.with_tmp Demo.tmp Demo2.bare_attached (of_str Demo.tmp)
              "/dev/disk4s1" Demo2.bare_image
              (fst (hdiutil_detach Demo2.bare_platform "/dev/disk4s1" Demo2.bare_attached))
              (Ok tt) false Demo.disk (Ok tt)
              ltac:(vm_compute; reflexivity) ltac:(vm_compute; reflexivity) N
              ltac:(vm_compute; reflexivity) ltac:(vm_compute; reflexivity))
    as (C & _ & _ & Lit).
  rewrite (C {| copy_dmg := "pokerok.dmg"; copy_dest := "/Applications";
                copy_dry_run := false |});
    [|vm_compute; reflexivity|eexists; reflexivity].
  rewrite (Lit eq_refl eq_refl). split; reflexivity.
Defined.

Lemma failed_detach_exit_status_witness :
  main (fun _ => "") "darwin"
    (cmd_detach Demo.platform
       {| detach_device := None; detach_mountpoint := Some "/tmp/pokerok_mnt_demo" |})
    (mkTop Demo.world []) =
  (mkTop
     (mkWorld Demo.disk false []
        [detach_cmd "/tmp/pokerok_mnt_demo"; force_cmd "/tmp/pokerok_mnt_demo"])
     ["Команда завершилась ошибкой [1]: hdiutil detach -force /tmp/pokerok_mnt_demo";
      "STDERR:" +:+ newline +:+ "hdiutil: detach failed - No such file or directory"],
   1%Z).
Proof.
  rewrite (failed_detach_exit_status Demo.platform (fun _ => "")
             {| detach_device := None; detach_mountpoint := Some "/tmp/pokerok_mnt_demo" |}
             (mkTop Demo.world []) "/tmp/pokerok_mnt_demo"
             false Demo.disk 1 "" "hdiutil: detach failed - No such file or directory"
             false Demo.disk 1 "" "hdiutil: detach failed - No such file or directory");
    try reflexivity; discriminate.
Defined.

Lemma sha256sum_size_and_digest_witness :
  FS.stat (files Demo.ab_world) (of_str "/Volumes/AB/B") = inr (FS.File "b")
  /\ sha256sum "" Demo2.toy_update id (of_str "/Volumes/AB/B") Demo.ab_world =
       (Demo.ab_world, Ok ("b", 1%N)).
Proof.
  assert (FS.stat (files Demo.ab_world) (of_str "/Volumes/AB/B") = inr (FS.File "b"))
    as S by (vm_compute; reflexivity).
  split; [exact S|].
  destruct (sha256sum_size_and_digest "" Demo2.toy_update id Demo.ab_world
              (of_str "/Volumes/AB/B") "b" S) as (E & _).
  rewrite E. reflexivity.
Defined.

Lemma dry_run_keeps_existing_tree_witness :
  FS.is_dir (files Demo.world) (of_str "/Applications") = true
  /\ files (fst (copy_app Demo.app (of_str "/Applications") true Demo.world)) =
       files Demo.world.
Proof.
  assert (FS.is_dir (files Demo.world) (of_str "/Applications") = true)
    as D by (vm_compute; reflexivity).
  split; [exact D|].
  rewrite (dry_run_keeps_existing_tree Demo.world Demo.app (of_str "/Applications") D).
  reflexivity.
Defined.

Lemma copy_app_installs_on_free_name_witness :
  exists r',
    copy_app Demo.app (of_str "/Users/me") false Demo.attached =
      (mkWorld (FS.with_root (files Demo.attached) r') (hidden Demo.attached)
         (printed Demo.attached) (log Demo.attached),
       Ok (div (of_str "/Users/me") (name Demo.app)))
    /\ FS.get r' ["Users"; "me"; "PokerOK.app"] = Some (FS.Dir Demo.bundle)
    /\ FS.get r' ["Applications"; "PokerOK.app"; "stale"] = Some (FS.File "old").
Proof.
  destruct (copy_app_installs_on_free_name Demo.attached Demo.app (of_str "/Users/me")
              ["Users"; "me"] ["tmp"; "pokerok_mnt_demo"; "PokerOK.app"] [] Demo.bundle
              ltac:(repeat split; vm_compute; reflexivity)
              ltac:(vm_compute; reflexivity) ltac:(vm_compute; reflexivity)
              eq_refl
              ltac:(vm_compute; reflexivity) ltac:(vm_compute; reflexivity)
              eq_refl)
    as (r' & E & G & Fr).
  exists r'. split; [exact E|]. split; [exact G|].
  rewrite (Fr ["Applications"; "PokerOK.app"; "stale"]); vm_compute; reflexivity.
Defined.

Lemma copy_app_file_source_clears_destination_witness :
  snd (copy_app (of_str "/Volumes/PokerOK/PokerOK.app") (of_str "/Applications") false
         Demo2.file_bundle_world) = Raise (OSError NotADirectoryError)
  /\ FS.root (files (fst (copy_app (of_str "/Volumes/PokerOK/PokerOK.app")
                            (of_str "/Applications") false Demo2.file_bundle_world))) =
       FS.update (FS.root (files Demo2.file_bundle_world)) ["Applications"]
         (FS.remove_entry "PokerOK.app").
Proof.
  destruct (copy_app_file_source_clears_destination Demo2.file_bundle_world
              (of_str "/Volumes/PokerOK/PokerOK.app") (of_str "/Applications")
              ["Applications"] ["Volumes"; "PokerOK"; "PokerOK.app"]
              [("Other.app", FS.Dir []); ("PokerOK.app", FS.Dir [("stale", FS.File "old")])]
              (FS.Dir [("stale", FS.File "old")]) "not a bundle"
              ltac:(repeat split; vm_compute; reflexivity)
              ltac:(vm_compute; reflexivity) ltac:(vm_compute; reflexivity)
              eq_refl
              (or_introl (ex_intro _ [("stale", FS.File "old")] eq_refl))
              ltac:(vm_compute; reflexivity) ltac:(vm_compute; reflexivity))
    as (E & _).
  rewrite E. split; reflexivity.
Defined.

Lemma cmd_copy_reports_after_copy_witness :
  main (fun _ => "") "darwin"
    (at_top (cmd_copy Demo.platform
               {| copy_dmg := "pokerok.dmg"; copy_dest := "/Users/me";
                  copy_dry_run := true |}))
    (mkTop Demo.world []) =
  (mkTop
     (mkWorld Demo.disk false
        ["[DRY-RUN] Скопировал бы: /tmp/pokerok_mnt_demo/PokerOK.app -> /Users/me/PokerOK.app";
         "[DRY-RUN] Готово: /Users/me/PokerOK.app"]
        [mount_cmd "pokerok.dmg" Demo.tmp; detach_cmd "/dev/disk4s1"])
     [], 0%Z).
Proof.
  destruct (cmd_copy_reports_after_copy Demo.platform (fun _ => "")
              {| copy_dmg := "pokerok.dmg"; copy_dest := "/Users/me";
                 copy_dry_run := true |}
              (mkTop Demo.world [])
              (of_str "/Users/me") false Demo2.with_tmp Demo.tmp Demo.attached
              (of_str Demo.tmp) "/dev/disk4s1" Demo.app
              (fst (copy_app Demo.app (of_str "/Users/me") true Demo.attached))
              (Ok (of_str "/Users/me/PokerOK.app"))
              (fst (hdiutil_detach Demo.platform "/dev/disk4s1"
                      (fst (copy_block Demo.platform (of_str "/Users/me") true
                              (of_str Demo.tmp) Demo.attached))))
              (Ok tt) false Demo.disk (Ok tt)
              ltac:(vm_compute; reflexivity) ltac:(vm_compute; reflexivity)
              ltac:(vm_compute; reflexivity) ltac:(vm_compute; reflexivity)
              ltac:(vm_compute; reflexivity) ltac:(vm_compute; reflexivity)
              ltac:(vm_compute; reflexivity)) as [E _].
  rewrite E. vm_compute. reflexivity.
Defined.

Lemma device_from_hfs_entry_else_first_witness :
  chosen_device Demo2.apfs_report = Some "/dev/disk4"
  /\ chosen_device Demo.report = Some "/dev/disk4s1".
Proof.
  destruct (device_from_hfs_entry_else_first Demo2.apfs_report) as (_ & A & _).
  destruct (device_from_hfs_entry_else_first Demo.report) as (F & _ & _).
  split.
  - apply (A [] _ _ "/dev/disk4" ltac:(repeat constructor) eq_refl
             ltac:(constructor) ltac:(vm_compute; reflexivity)).
  - apply (F [ {[ "dev-entry" := "/dev/disk4"; "content-hint" := "GUID_partition_scheme" ]} ]
             _ [] "/dev/disk4s1" eq_refl ltac:(vm_compute; reflexivity)
             ltac:(vm_compute; reflexivity) ltac:(discriminate) ltac:(constructor)).
Defined.
